(** * lab5: a tracking [memory_resource] and a growable array built on it

    A shallow embedding of [src/lab5/lab.cpp].

    - [DynamicMapMemoryResource] keeps a [std::map<void*, size_t>] of the
      blocks it obtained from [std::malloc]; it is modelled by a [gmap].
    - [pmr_vector<T>] is a record of its four data members.  Objects live in
      a store indexed by their address, so that [this != &other] and the
      sharing of a buffer or of a resource between objects are visible.
    - The C runtime heap is part of the state: which blocks [std::malloc]
      has handed out, how many bytes each was requested with, and which
      element slots of a block hold a live object.
    - Code is written in a state monad with C++ exceptions and undefined
      behaviour as the two abnormal outcomes.
    - What the runtime decides is an input: the address [std::malloc]
      answers with is an argument of the functions that may call it, and
      the answers of [operator new] to the requests for a node of the
      [std::map] are part of the state. *)

From stdpp Require Import gmap list fin_maps.
From Stdlib Require Import ZArith Lia.

Local Open Scope Z_scope.

(** ** Machine-level data *)

(** A [void*] (or [T*] to the start of a block).  [nullptr] is address 0. *)
Abbreviation ptr := Z (only parsing).
Definition NULL : ptr := 0.

(** [std::size_t] is a 64-bit unsigned integer. *)
Definition SIZE_MAX : Z := 2 ^ 64 - 1.
Definition wrap (z : Z) : Z := z mod 2 ^ 64.

(** The exceptions the code can raise. *)
Inductive exn := bad_alloc | bad_array_new_length.

(** ** Objects *)

(** [class DynamicMapMemoryResource]: one data member. *)
Record DynamicMapMemoryResource := mkResource {
  allocated_blocks_ : gmap Z Z
}.

(** [class pmr_vector<T>]: [alloc_] is a [polymorphic_allocator<T>], that is
    a pointer to a memory resource; it is kept as the address of that
    resource object. *)
Record pmr_vector := mkVector {
  data_ : ptr;
  size_ : Z;
  capacity_ : Z;
  alloc_ : N
}.

Section Lab5.

(** The element type, its [sizeof] and [alignof]. *)
Context {T : Type}.
Variable sizeof_T : Z.
Variable alignof_T : Z.

(** ** The state of the program *)

(** A block handed out by [std::malloc]: the number of bytes it was
    requested with, and, once it is used as a [T] array, its element slots
    ([None] is raw storage without a live object). *)
Record block := mkBlock {
  blk_bytes : Z;
  blk_slots : list (option T)
}.

Record World := mkWorld {
  heap : gmap Z block;            (* blocks malloc'ed and not yet freed *)
  released : Z;                   (* bytes given back through free so far *)
  resources : gmap N DynamicMapMemoryResource;
  vectors : gmap N pmr_vector;
  node_grants : list bool         (* what operator new answers to the coming
                                     requests for a std::map node: granted
                                     or not; granted once the list is used up *)
}.

Definition set_heap (h : gmap Z block) (w : World) : World :=
  mkWorld h (released w) (resources w) (vectors w) (node_grants w).
Definition set_released (n : Z) (w : World) : World :=
  mkWorld (heap w) n (resources w) (vectors w) (node_grants w).
Definition set_resources (r : gmap N DynamicMapMemoryResource) (w : World) : World :=
  mkWorld (heap w) (released w) r (vectors w) (node_grants w).
Definition set_vectors (v : gmap N pmr_vector) (w : World) : World :=
  mkWorld (heap w) (released w) (resources w) v (node_grants w).
Definition set_node_grants (g : list bool) (w : World) : World :=
  mkWorld (heap w) (released w) (resources w) (vectors w) g.

(** ** The monad *)

Inductive outcome (A : Type) :=
| Ok (a : A) (w : World)          (* normal return *)
| Throw (e : exn) (w : World)     (* an exception leaves the call *)
| UB.                             (* undefined behaviour *)
Arguments Ok {A} a w.
Arguments Throw {A} e w.
Arguments UB {A}.

Definition M (A : Type) : Type := World -> outcome A.

Definition ret {A} (a : A) : M A := fun w => Ok a w.
Definition bind {A B} (m : M A) (k : A -> M B) : M B := fun w =>
  match m w with
  | Ok a w' => k a w'
  | Throw e w' => Throw e w'
  | UB => UB
  end.
Definition throw {A} (e : exn) : M A := fun w => Throw e w.
Definition undefined {A} : M A := fun _ => UB.

Notation "'let!' x ':=' m 'in' k" := (bind m (fun x => k))
  (at level 10, x pattern, m at level 100, k at level 200).
Notation "m ';;' k" := (bind m (fun _ => k))
  (at level 100, k at level 200, right associativity).

(** A [for] loop over the positions or entries [xs], in order. *)
Fixpoint for_each {A} (xs : list A) (body : A -> M unit) : M unit :=
  match xs with
  | [] => ret tt
  | x :: xs' => body x ;; for_each xs' body
  end.

(** Access to an object through a pointer to it; a dangling pointer is
    undefined behaviour. *)
Definition get_resource (this : N) : M DynamicMapMemoryResource := fun w =>
  match resources w !! this with
  | Some mr => Ok mr w
  | None => UB
  end.
Definition put_resource (this : N) (mr : DynamicMapMemoryResource) : M unit := fun w =>
  Ok tt (set_resources (<[this := mr]> (resources w)) w).
Definition get_vector (this : N) : M pmr_vector := fun w =>
  match vectors w !! this with
  | Some v => Ok v w
  | None => UB
  end.
Definition put_vector (this : N) (v : pmr_vector) : M unit := fun w =>
  Ok tt (set_vectors (<[this := v]> (vectors w)) w).

(** ** The C runtime allocator *)

(** [std::malloc(bytes)].  Which address the runtime picks, and whether it
    gives up, is not determined by the program: [r] is the runtime's choice.
    The request is granted at [r] when [r] is a non-null address at which no
    block is live; any other choice stands for the runtime reporting
    failure. *)
Definition malloc (r : ptr) (bytes : Z) : M ptr := fun w =>
  match heap w !! r with
  | Some _ => Ok NULL w
  | None =>
      if r =? NULL then Ok NULL w
      else Ok r (set_heap (<[r := mkBlock bytes []]> (heap w)) w)
  end.

(** [std::free(p)]: a no-op on [nullptr], undefined on anything that is not
    a live block. *)
Definition free (p : ptr) : M unit := fun w =>
  if p =? NULL then Ok tt w
  else match heap w !! p with
       | Some b => Ok tt (set_released (released w + blk_bytes b)
                            (set_heap (delete p (heap w)) w))
       | None => UB
       end.

(** ** [DynamicMapMemoryResource] *)

(** [operator new] for a node of a [std::map]: the runtime grants the
    request or refuses it. *)
Definition new_node : M bool := fun w =>
  match node_grants w with
  | [] => Ok true w
  | g :: rest => Ok g (set_node_grants rest w)
  end.

(** [allocated_blocks_[ptr] = bytes]: [operator[]] finds the entry of the
    key or inserts one, for which it needs a node; when the node is refused,
    [std::bad_alloc] leaves it and the map is as before. *)
Definition map_assign (this : N) (p : ptr) (bytes : Z) : M unit :=
  let! mr := get_resource this in
  match allocated_blocks_ mr !! p with
  | Some _ => put_resource this (mkResource (<[p := bytes]> (allocated_blocks_ mr)))
  | None =>
      let! granted := new_node in
      if granted
      then put_resource this (mkResource (<[p := bytes]> (allocated_blocks_ mr)))
      else throw bad_alloc
  end.

Definition do_allocate (this : N) (r : ptr) (bytes alignment : Z) : M ptr :=
  let! p := malloc r bytes in
  if p =? NULL then throw bad_alloc
  else
    map_assign this p bytes ;;
    ret p.

Definition do_deallocate (this : N) (p : ptr) (bytes alignment : Z) : M unit :=
  let! mr := get_resource this in
  match allocated_blocks_ mr !! p with
  | Some _ =>
      free p ;;
      put_resource this (mkResource (delete p (allocated_blocks_ mr)))
  | None => ret tt
  end.

Definition do_is_equal (this other : N) : bool := N.eqb this other.

(** The body of [~DynamicMapMemoryResource].  [std::map] is traversed in
    key order; [map_to_list] fixes some order of the same entries.  Only the
    body is modelled: the object stays in the store, with the empty map the
    body leaves, although its lifetime has ended. *)
Definition resource_dtor (this : N) : M unit :=
  let! mr := get_resource this in
  for_each (map_to_list (allocated_blocks_ mr)) (fun '(p, _) => free p) ;;
  put_resource this (mkResource ∅).

(** ** Element slots of a block *)

(** Placement-construct a [T] at [&p[i]] ([allocator_traits::construct]);
    outside the storage of a live block this is undefined. *)
Definition construct (p : ptr) (i : Z) (x : T) : M unit := fun w =>
  match heap w !! p with
  | Some b =>
      if (0 <=? i) && (i <? Z.of_nat (length (blk_slots b))) then
        Ok tt (set_heap (<[p := mkBlock (blk_bytes b)
                                 (<[Z.to_nat i := Some x]> (blk_slots b))]> (heap w)) w)
      else UB
  | None => UB
  end.

(** Read the object at [p[i]]; there has to be one. *)
Definition load (p : ptr) (i : Z) : M T := fun w =>
  match heap w !! p with
  | Some b =>
      if 0 <=? i then
        match blk_slots b !! Z.to_nat i with
        | Some (Some x) => Ok x w
        | _ => UB
        end
      else UB
  | None => UB
  end.

(** End the lifetime of the object at [p[i]] ([allocator_traits::destroy]). *)
Definition destroy (p : ptr) (i : Z) : M unit := fun w =>
  match heap w !! p with
  | Some b =>
      if 0 <=? i then
        match blk_slots b !! Z.to_nat i with
        | Some (Some _) =>
            Ok tt (set_heap (<[p := mkBlock (blk_bytes b)
                                     (<[Z.to_nat i := None]> (blk_slots b))]> (heap w)) w)
        | _ => UB
        end
      else UB
  | None => UB
  end.

(** ** Arguments passed by reference *)

(** What a [const T&] or [T&&] parameter is bound to: an object outside the
    buffers of the arrays (a temporary, a local variable), which lives
    through the call and is given by its value, or the object at [p[i]] in
    a block of the heap. *)
Inductive reference :=
| Val (x : T)
| At (p : ptr) (i : Z).

(** The object a reference refers to; there has to be one. *)
Definition read (a : reference) : M T :=
  match a with
  | Val x => ret x
  | At p i => load p i
  end.

(** ** [std::pmr::polymorphic_allocator<T>] over a resource [mr] *)

(** Its special member functions, as the standard library declares them
    ([<memory_resource>], [[mem.poly.allocator.class]]):
    [polymorphic_allocator(const polymorphic_allocator&) = default;] and
    [polymorphic_allocator& operator=(const polymorphic_allocator&) = delete;]. *)
Inductive special_member := defaulted | deleted.
Definition polymorphic_allocator_copy_constructor : special_member := defaulted.
Definition polymorphic_allocator_copy_assignment : special_member := deleted.

(** [allocate(n)]: refuses a byte count that does not fit [size_t], asks the
    resource for [n * sizeof(T)] bytes and hands the block out as [n] raw
    slots. *)
Definition as_array (p : ptr) (n : Z) : M unit := fun w =>
  match heap w !! p with
  | Some b => Ok tt (set_heap (<[p := mkBlock (blk_bytes b)
                                  (replicate (Z.to_nat n) None)]> (heap w)) w)
  | None => UB
  end.

Definition pa_allocate (mr : N) (r : ptr) (n : Z) : M ptr :=
  if SIZE_MAX / sizeof_T <? n then throw bad_array_new_length
  else
    let! p := do_allocate mr r (n * sizeof_T) alignof_T in
    as_array p n ;;
    ret p.

Definition pa_deallocate (mr : N) (p : ptr) (n : Z) : M unit :=
  do_deallocate mr p (n * sizeof_T) alignof_T.

(** ** [pmr_vector<T>] *)

Definition grow (this : N) (r : ptr) : M unit :=
  let! v := get_vector this in
  let new_cap := if capacity_ v =? 0 then 1 else wrap (capacity_ v * 2) in
  let! new_data := pa_allocate (alloc_ v) r new_cap in
  for_each (seqZ 0 (size_ v)) (fun i =>
    let! x := load (data_ v) i in
    construct new_data i x ;;
    destroy (data_ v) i) ;;
  (if data_ v =? NULL then ret tt
   else pa_deallocate (alloc_ v) (data_ v) (capacity_ v)) ;;
  put_vector this (mkVector new_data (size_ v) new_cap (alloc_ v)).

(** [explicit pmr_vector(memory_resource* mr)] *)
Definition vector_ctor (this : N) (mr : N) : M unit :=
  put_vector this (mkVector NULL 0 0 mr).

Definition clear (this : N) : M unit :=
  let! v := get_vector this in
  for_each (seqZ 0 (size_ v)) (fun i => destroy (data_ v) i) ;;
  put_vector this (mkVector (data_ v) 0 (capacity_ v) (alloc_ v)).

(** The body of [~pmr_vector]. *)
Definition vector_dtor (this : N) : M unit :=
  clear this ;;
  let! v := get_vector this in
  if data_ v =? NULL then ret tt
  else pa_deallocate (alloc_ v) (data_ v) (capacity_ v).

(** [pmr_vector(pmr_vector&& other)] *)
Definition move_ctor (this other : N) : M unit :=
  let! o := get_vector other in
  put_vector this (mkVector (data_ o) (size_ o) (capacity_ o) (alloc_ o)) ;;
  put_vector other (mkVector NULL 0 0 (alloc_ o)).

(** The statements of [operator=(pmr_vector&& other)], with
    [alloc_ = other.alloc_] read as the copy of the resource pointer, which
    is what the line asks for. *)
Definition move_assign_body (this other : N) : M unit :=
  if negb (N.eqb this other) then
    clear this ;;
    let! v := get_vector this in
    (if data_ v =? NULL then ret tt
     else pa_deallocate (alloc_ v) (data_ v) (capacity_ v)) ;;
    let! o := get_vector other in
    put_vector this (mkVector (data_ o) (size_ o) (capacity_ o) (alloc_ o)) ;;
    put_vector other (mkVector NULL 0 0 (alloc_ o))
  else ret tt.

(** [operator=(pmr_vector&& other)] is a member of a class template and is
    instantiated where a program uses it.  [alloc_ = other.alloc_] calls the
    copy assignment operator of the allocator: the member can be
    instantiated only if there is one; without it a program that assigns an
    array is ill-formed, and there is no operator to run. *)
Definition move_assign : option (N -> N -> M unit) :=
  match polymorphic_allocator_copy_assignment with
  | defaulted => Some move_assign_body
  | deleted => None
  end.

(** [push_back(const T&)] and [push_back(T&&)]: the element type is a plain
    value here, so copying and moving it in are the same.  The parameter is
    a reference.  It is bound when the call is made, and a reference has to
    be bound to an object: the first line is that binding, it reads nothing
    into the body.  The object is read where the new element is constructed
    from it, [T(value)], which is after [grow()]. *)
Definition push_back (this : N) (r : ptr) (value : reference) : M unit :=
  read value ;;
  let! v := get_vector this in
  (if capacity_ v <=? size_ v then grow this r else ret tt) ;;
  let! v := get_vector this in
  let! x := read value in
  construct (data_ v) (size_ v) x ;;
  put_vector this (mkVector (data_ v) (wrap (size_ v + 1)) (capacity_ v) (alloc_ v)).

Definition size (this : N) : M Z :=
  let! v := get_vector this in ret (size_ v).
Definition empty (this : N) : M bool :=
  let! v := get_vector this in ret (size_ v =? 0).

(** [operator[]] *)
Definition index (this : N) (i : Z) : M T :=
  let! v := get_vector this in load (data_ v) i.

(** ** [pmr_vector_iterator<T>]: a [T*], that is a block and a position *)

Record pmr_vector_iterator := mkIter { it_block : ptr; it_pos : Z }.

Definition iter_deref (it : pmr_vector_iterator) : M T :=
  load (it_block it) (it_pos it).
Definition iter_incr (it : pmr_vector_iterator) : pmr_vector_iterator :=
  mkIter (it_block it) (it_pos it + 1).
Definition iter_eq (a b : pmr_vector_iterator) : bool :=
  (it_block a =? it_block b) && (it_pos a =? it_pos b).

Definition begin_ (this : N) : M pmr_vector_iterator :=
  let! v := get_vector this in ret (mkIter (data_ v) 0).
Definition end_ (this : N) : M pmr_vector_iterator :=
  let! v := get_vector this in ret (mkIter (data_ v) (size_ v)).

(** [for (const auto& x : vec) out.push_back(x);], the loop of [main]:
    advance from [begin()] until [end()] is met, at most [fuel] times. *)
Fixpoint range_for (fuel : nat) (it last : pmr_vector_iterator) : M (list T) :=
  if iter_eq it last then ret []
  else match fuel with
       | O => undefined
       | S fuel' =>
           let! x := iter_deref it in
           let! xs := range_for fuel' (iter_incr it) last in
           ret (x :: xs)
       end.

Definition iterate (this : N) : M (list T) :=
  let! b := begin_ this in
  let! e := end_ this in
  range_for (Z.to_nat (it_pos e - it_pos b)) b e.

(** ** Histories of calls on a resource *)

(** One call made by a client of the resource; [Allocate] carries the
    runtime's choice for the [malloc] inside it. *)
Inductive call :=
| Allocate (r : ptr) (bytes alignment : Z)
| Deallocate (p : ptr) (bytes alignment : Z).

(** What the client sees of it. *)
Inductive reply :=
| Returned (p : ptr)
| Raised (e : exn)
| Done.

Definition perform (this : N) (c : call) (w : World) : option (reply * World) :=
  match c with
  | Allocate r bytes alignment =>
      match do_allocate this r bytes alignment w with
      | Ok p w' => Some (Returned p, w')
      | Throw e w' => Some (Raised e, w')
      | UB => None
      end
  | Deallocate p bytes alignment =>
      match do_deallocate this p bytes alignment w with
      | Ok _ w' => Some (Done, w')
      | Throw e w' => Some (Raised e, w')
      | UB => None
      end
  end.

(** A client that makes the calls one after the other, going on after an
    exception. *)
Fixpoint perform_all (this : N) (cs : list call) (w : World)
  : option (list reply * World) :=
  match cs with
  | [] => Some ([], w)
  | c :: cs' =>
      match perform this c w with
      | Some (rep, w') =>
          match perform_all this cs' w' with
          | Some (reps, w'') => Some (rep :: reps, w'')
          | None => None
          end
      | None => None
      end
  end.

(** The accounting an observer of the calls and replies keeps, in the words
    of the specification: a handle returned by allocate is added with the
    size that was asked for, a handle passed to deallocate is struck out. *)
Fixpoint live_handles (acc : list (Z * Z)) (hist : list (call * reply)) : list (Z * Z) :=
  match hist with
  | [] => acc
  | (Allocate _ bytes _, Returned p) :: hist' =>
      live_handles (acc ++ [(p, bytes)]) hist'
  | (Deallocate p _ _, _) :: hist' =>
      live_handles (filter (fun e => e.1 ≠ p) acc) hist'
  | _ :: hist' => live_handles acc hist'
  end.

(** [N] allocate calls in a row, none of which fails. *)
Fixpoint allocate_all (this : N) (al : Z) (reqs : list (Z * Z)) : M (list Z) :=
  match reqs with
  | [] => ret []
  | (r, bytes) :: reqs' =>
      let! p := do_allocate this r bytes al in
      let! ps := allocate_all this al reqs' in
      ret (p :: ps)
  end.

Definition sumZ (l : list Z) : Z := foldr Z.add 0 l.

(** Bytes in blocks the runtime has handed out and not got back. *)
Definition outstanding (w : World) : Z :=
  sumZ (blk_bytes <$> (map_to_list (heap w)).*2).

(** The resource [this] has mapping [m], and every handle in it is a live
    block of the runtime. *)
Definition resource_sound (this : N) (m : gmap Z Z) (w : World) : Prop :=
  resources w !! this = Some (mkResource m) /\
  forall p, is_Some (m !! p) -> is_Some (heap w !! p).

(** An observer's list [acc] and the mapping [m] hold the same entries. *)
Definition same_entries (acc : list (Z * Z)) (m : gmap Z Z) : Prop :=
  NoDup acc.*1 /\ forall p n, m !! p = Some n <-> (p, n) ∈ acc.

(** The blocks of mapping [m] are exactly what the heap of [w] holds on top
    of a heap [h0], each with the size the mapping records. *)
Definition tracks (h0 : gmap Z block) (m : gmap Z Z) (w : World) : Prop :=
  (forall p n, m !! p = Some n ->
     p ≠ NULL /\ h0 !! p = None /\ exists b, heap w !! p = Some b /\ blk_bytes b = n) /\
  (forall p, m !! p = None -> heap w !! p = h0 !! p).

(** ** The demonstration of [main] *)

(** [DynamicMapMemoryResource mr;] at address 1, in an otherwise empty
    program state. *)
Definition fresh_world : World :=
  mkWorld ∅ 0 {[ 1%N := mkResource ∅ ]} ∅ [].

(** The state a computation leaves behind. *)
Definition world_of {A} (o : outcome A) : World :=
  match o with
  | Ok _ w => w
  | Throw _ w => w
  | UB => fresh_world
  end.

(** [pmr_vector<T> vec(&mr); vec.push_back(x); vec.push_back(y);
    vec.push_back(z);] with the array at address 10 and the runtime placing
    the three buffers at 100, 200 and 300. *)
Definition main_block (x y z : T) : M unit :=
  vector_ctor 10 1 ;;
  push_back 10 100 (Val x) ;;
  push_back 10 200 (Val y) ;;
  push_back 10 300 (Val z).

(** Two arrays on the resource: [a] at address 11 with one element and
    capacity 1, [b] at address 12 with two elements and capacity 2. *)
Definition two_arrays (x y z : T) : M unit :=
  vector_ctor 11 1 ;;
  push_back 11 100 (Val x) ;;
  vector_ctor 12 1 ;;
  push_back 12 200 (Val y) ;;
  push_back 12 300 (Val z).

(** Calls on the resource: two blocks, one given back, a handle that was
    never issued, two requests the runtime refuses, and an address used
    again. *)
Definition resource_calls : list call :=
  [ Allocate 100 16 8; Allocate 200 32 8; Deallocate 100 16 8;
    Deallocate 555 1 1; Allocate 0 8 8; Allocate 200 8 8; Allocate 100 64 8 ].

(** ** What a vector holds *)

(** The vector record [v] is in a sound state in [w] and holds the elements
    [xs]: either it has no buffer, or its buffer is a live block whose first
    [size_] slots are the elements and whose other slots, up to
    [capacity_], are raw. *)
Definition vec_holds (v : pmr_vector) (xs : list T) (w : World) : Prop :=
  size_ v = Z.of_nat (length xs) /\
  size_ v <= capacity_ v <= SIZE_MAX /\
  ((data_ v = NULL /\ capacity_ v = 0) \/
   (data_ v ≠ NULL /\ exists b,
      heap w !! data_ v = Some b /\
      blk_slots b = (Some <$> xs) ++ replicate (Z.to_nat (capacity_ v - size_ v)) None)).

(** The capacity [push_back] leaves behind, in the words of the
    specification: grown only when the count has reached the capacity,
    to 1 from 0 and to twice the capacity otherwise. *)
Definition next_capacity (count capacity : Z) : Z :=
  if capacity <=? count
  then (if capacity =? 0 then 1 else 2 * capacity)
  else capacity.


(** The capacities after each of [n] appends, from a given count and
    capacity. *)
Fixpoint capacities_from (count capacity : Z) (n : nat) : list Z :=
  match n with
  | O => []
  | S n' =>
      let c := next_capacity count capacity in
      c :: capacities_from (count + 1) c n'
  end.

(** Appends in a row, each with the runtime's choice for a [malloc] that
    may be needed.  The client notes, for each of them, the value of the
    object it passes, before the call, and the capacity it sees after the
    call. *)
Fixpoint push_back_all (this : N) (ras : list (Z * reference)) : M (list (T * Z)) :=
  match ras with
  | [] => ret []
  | (r, a) :: ras' =>
      let! x := read a in
      push_back this r a ;;
      let! v := get_vector this in
      let! out := push_back_all this ras' in
      ret ((x, capacity_ v) :: out)
  end.

(** Arguments that are objects outside the arrays, as in [main]. *)
Definition vals (rxs : list (Z * T)) : list (Z * reference) :=
  (fun rx => (rx.1, Val rx.2)) <$> rxs.


(** Every vector object satisfies [0 <= size_ <= capacity_]. *)
Definition count_le_capacity (w : World) : Prop :=
  forall id v, vectors w !! id = Some v -> 0 <= size_ v <= capacity_ v.

(** Nothing but the blocks [ps] of the heap differs between [w] and [w']. *)
Definition same_except (ps : list Z) (w w' : World) : Prop :=
  released w' = released w /\ resources w' = resources w /\
  vectors w' = vectors w /\
  forall p, p ∉ ps -> heap w' !! p = heap w !! p.

(** Blocks keep their size and number of slots from [w] to [w']. *)
Definition shape (b : block) : Z * nat := (blk_bytes b, length (blk_slots b)).
Definition same_shape (w w' : World) : Prop :=
  released w' = released w /\ resources w' = resources w /\
  vectors w' = vectors w /\
  forall p, shape <$> heap w' !! p = shape <$> heap w !! p.

(** A computation that raises no exception. *)
Definition nothrow {A} (m : M A) : Prop :=
  forall w e w', m w ≠ Throw e w'.

(** [new_cap] of [grow]: the capacity asked for when the array is full. *)
Definition new_cap (capacity : Z) : Z :=
  if capacity =? 0 then 1 else wrap (capacity * 2).

(** ** More of the iterator *)

(** [operator++(int)]: the value returned and the new value of [*this]. *)
Definition iter_post_incr (it : pmr_vector_iterator)
  : pmr_vector_iterator * pmr_vector_iterator :=
  (it, iter_incr it).

(** [operator!=] *)
Definition iter_neq (a b : pmr_vector_iterator) : bool := negb (iter_eq a b).

(** [cbegin()], [cend()] and the [const] overloads of [begin()], [end()]. *)
Definition cbegin (this : N) : M pmr_vector_iterator := begin_ this.
Definition cend (this : N) : M pmr_vector_iterator := end_ this.

(** [n] times [++it]. *)
Definition iter_advance (n : nat) (it : pmr_vector_iterator) : pmr_vector_iterator :=
  Nat.iter n iter_incr it.

(** ** An array as the only client of its resource *)

(** The array [this] with record [v] holds [xs], and its buffer, if it has
    one, is the one block that heap and mapping hold on top of a heap [h0]
    and a mapping [m0], recorded with [capacity_ * sizeof(T)] bytes. *)
Definition sole_owner (this : N) (h0 : gmap Z block) (m0 : gmap Z Z)
    (v : pmr_vector) (xs : list T) (w : World) : Prop :=
  vectors w !! this = Some v /\ vec_holds v xs w /\
  ((data_ v = NULL /\
    resources w !! alloc_ v = Some (mkResource m0) /\ heap w = h0) \/
   (data_ v ≠ NULL /\ h0 !! data_ v = None /\ m0 !! data_ v = None /\
    resources w !! alloc_ v
    = Some (mkResource (<[data_ v := capacity_ v * sizeof_T]> m0)) /\
    exists b, blk_bytes b = capacity_ v * sizeof_T /\
      heap w = <[data_ v := b]> h0)).

(** ** The states one allocation can leave *)

(** The state after [do_allocate] has recorded the block at [r], with [g]
    the answers [operator new] has left. *)
Definition allocated (this : N) (mr : DynamicMapMemoryResource) (r bytes : Z)
    (g : list bool) (w : World) : World :=
  mkWorld (<[r := mkBlock bytes []]> (heap w)) (released w)
    (<[this := mkResource (<[r := bytes]> (allocated_blocks_ mr))]> (resources w))
    (vectors w) g.

(** The state after [do_allocate] has obtained the block at [r] and was
    refused the node to record it in: the block is live and the map does
    not know it. *)
Definition leaked (r bytes : Z) (g : list bool) (w : World) : World :=
  mkWorld (<[r := mkBlock bytes []]> (heap w)) (released w) (resources w)
    (vectors w) g.

(** What a failed allocation of [bytes] bytes, with the runtime's block at
    [r], has done to the state: nothing, or the block is live and
    unrecorded and the refusal of [operator new] is used up. *)
Definition after_failure (r bytes : Z) (w w' : World) : Prop :=
  w' = w \/
  (r ≠ NULL /\ heap w !! r = None /\
   exists g, node_grants w = false :: g /\ w' = leaked r bytes g w).

(** The answers of [operator new] that are left after a computation are
    among those that were there before. *)
Definition grants_mono {A} (m : M A) : Prop :=
  forall w a w', m w = Ok a w' -> node_grants w' `suffix_of` node_grants w.

(** ** Proof support *)

Ltac wsimpl := unfold set_heap, set_released, set_resources, set_vectors,
  set_node_grants in *; simpl in *.

Ltac run := unfold bind, ret, throw, undefined, get_resource, put_resource,
  get_vector, put_vector in *; simpl in *; wsimpl.

Lemma world_eta w :
  mkWorld (heap w) (released w) (resources w) (vectors w) (node_grants w) = w.
Proof. by destruct w. Qed.

Lemma bind_ok_inv {A B} (m : M A) (k : A -> M B) w b w' :
  bind m k w = Ok b w' -> exists a w1, m w = Ok a w1 /\ k a w1 = Ok b w'.
Proof.
  unfold bind. destruct (m w) as [a w1|e1 w1|]; [|done..]. by exists a, w1.
Qed.

Lemma Ok_inj {A} (a a' : A) w w' : Ok a w = Ok a' w' -> a = a' /\ w = w'.
Proof. by intros [= -> ->]. Qed.

(** ** The resource: what one allocation does *)

Lemma do_allocate_run this r bytes al w mr :
  resources w !! this = Some mr ->
  do_allocate this r bytes al w
  = if decide (r = NULL \/ is_Some (heap w !! r)) then Throw bad_alloc w
    else match allocated_blocks_ mr !! r with
         | Some _ => Ok r (allocated this mr r bytes (node_grants w) w)
         | None =>
             match node_grants w with
             | [] => Ok r (allocated this mr r bytes [] w)
             | true :: g => Ok r (allocated this mr r bytes g w)
             | false :: g => Throw bad_alloc (leaked r bytes g w)
             end
         end.
Proof.
  intros Hmr. unfold do_allocate, malloc, bind at 1.
  destruct (heap w !! r) as [b|] eqn:Hr.
  { rewrite decide_True by (right; by eexists). done. }
  destruct (Z.eqb_spec r NULL) as [->|Hnull].
  { rewrite decide_True by (by left). done. }
  rewrite decide_False by (intros [?|[? ?]]; done).
  apply Z.eqb_neq in Hnull. rewrite Hnull.
  unfold map_assign, bind, get_resource, new_node, put_resource, ret, throw,
    set_heap. cbn [resources]. rewrite Hmr.
  destruct (allocated_blocks_ mr !! r); [done|]. cbn [node_grants].
  destruct (node_grants w) as [|[] g]; done.
Qed.

Lemma do_allocate_dangling this r bytes al w :
  resources w !! this = None ->
  do_allocate this r bytes al w
  = if decide (r = NULL \/ is_Some (heap w !! r)) then Throw bad_alloc w else UB.
Proof.
  intros Hmr. unfold do_allocate, malloc, bind at 1.
  destruct (heap w !! r) as [b|] eqn:Hr.
  { rewrite decide_True by (right; by eexists). done. }
  destruct (Z.eqb_spec r NULL) as [->|Hnull].
  { rewrite decide_True by (by left). done. }
  rewrite decide_False by (intros [?|[? ?]]; done).
  apply Z.eqb_neq in Hnull. rewrite Hnull.
  unfold map_assign, bind, get_resource, set_heap. cbn [resources]. by rewrite Hmr.
Qed.

(** What is known when [do_allocate] returns. *)
Lemma do_allocate_ok this r bytes al w p w' :
  do_allocate this r bytes al w = Ok p w' ->
  p = r /\ r ≠ NULL /\ heap w !! r = None /\
  exists mr g,
    resources w !! this = Some mr /\ w' = allocated this mr r bytes g w /\
    (g = node_grants w \/ node_grants w = true :: g).
Proof.
  destruct (resources w !! this) as [mr|] eqn:Hmr.
  - rewrite (do_allocate_run _ _ _ _ _ _ Hmr). case_decide as Hd; [done|].
    assert (r ≠ NULL /\ heap w !! r = None) as [? ?].
    { split; [intros ->; apply Hd; by left|].
      destruct (heap w !! r) eqn:?; [|done]. exfalso. apply Hd. right. by eexists. }
    destruct (allocated_blocks_ mr !! r).
    { intros [<- <-]%Ok_inj. split_and!; try done. exists mr, (node_grants w). auto. }
    destruct (node_grants w) as [|[] g] eqn:Hg; [| |done].
    + intros [<- <-]%Ok_inj. split_and!; try done. exists mr, []. auto.
    + intros [<- <-]%Ok_inj. split_and!; try done. exists mr, g. auto.
  - rewrite (do_allocate_dangling _ _ _ _ _ Hmr). by case_decide.
Qed.

(** What is known when [do_allocate] raises: the exception is
    [std::bad_alloc]; either the runtime has provided no block and the state
    is as it was, or it has provided one and refused the node of the map:
    then the block is live and unrecorded. *)
Lemma do_allocate_raises this r bytes al w e w' :
  do_allocate this r bytes al w = Throw e w' ->
  e = bad_alloc /\
  ((w' = w /\ (r = NULL \/ is_Some (heap w !! r))) \/
   (r ≠ NULL /\ heap w !! r = None /\
    exists mr g,
      resources w !! this = Some mr /\ allocated_blocks_ mr !! r = None /\
      node_grants w = false :: g /\ w' = leaked r bytes g w)).
Proof.
  destruct (resources w !! this) as [mr|] eqn:Hmr.
  - rewrite (do_allocate_run _ _ _ _ _ _ Hmr). case_decide as Hd.
    { intros [= <- <-]. split; [done|]. by left. }
    assert (r ≠ NULL /\ heap w !! r = None) as [? ?].
    { split; [intros ->; apply Hd; by left|].
      destruct (heap w !! r) eqn:?; [|done]. exfalso. apply Hd. right. by eexists. }
    destruct (allocated_blocks_ mr !! r) eqn:Hk; [done|].
    destruct (node_grants w) as [|[] g] eqn:Hg; [done|done|].
    intros [= <- <-]. split; [done|]. right. split_and!; try done.
    by exists mr, g.
  - rewrite (do_allocate_dangling _ _ _ _ _ Hmr). case_decide; [|done].
    intros [= <- <-]. split; [done|]. by left.
Qed.

(** ** The resource: unmatched deallocation *)

(** C8: deallocating a handle that is not in the mapping returns normally
    and leaves the whole state (runtime heap, bytes released, the mapping,
    every other object) as it was. *)
Theorem do_deallocate_absent_noop this mr p bytes alignment w :
  resources w !! this = Some mr ->
  allocated_blocks_ mr !! p = None ->
  do_deallocate this p bytes alignment w = Ok tt w.
Proof.
  intros Hmr Hp. unfold do_deallocate. run. by rewrite Hmr, Hp.
Qed.



(** ** The resource: accounting *)

Lemma same_entries_fresh acc m p n :
  same_entries acc m -> m !! p = None ->
  same_entries (acc ++ [(p, n)]) (<[p := n]> m).
Proof.
  intros [Hnd Hiff] Hp. split.
  - rewrite fmap_app. apply NoDup_app. split_and!; simpl.
    + done.
    + intros q Hq Hq'. apply list_elem_of_singleton in Hq' as ->.
      apply list_elem_of_fmap in Hq as [[q k] [-> Hqk]]. simpl in *.
      apply Hiff in Hqk. congruence.
    + apply NoDup_singleton.
  - intros q k. rewrite elem_of_app, list_elem_of_singleton, <- Hiff.
    destruct (decide (q = p)) as [->|Hne].
    + rewrite lookup_insert_eq. split.
      * intros [= ->]. by right.
      * intros [?|[= ->]]; [congruence | done].
    + rewrite lookup_insert_ne by done. split; [by left|].
      intros [?|[= ? ?]]; [done | congruence].
Qed.

Lemma same_entries_erase acc m p :
  same_entries acc m ->
  same_entries (filter (fun e => e.1 ≠ p) acc) (delete p m).
Proof.
  intros [Hnd Hiff]. split.
  - clear Hiff. induction acc as [|[q k] acc IH]; simpl in *; [constructor|].
    apply NoDup_cons in Hnd as [Hq Hnd]. rewrite filter_cons. simpl.
    case_decide; [|by apply IH]. simpl. apply NoDup_cons. split; [|by apply IH].
    intros Hin. apply Hq. apply list_elem_of_fmap in Hin as [e [-> He]].
    apply list_elem_of_filter in He as [_ He]. apply list_elem_of_fmap. eauto.
  - intros q k. rewrite list_elem_of_filter, <- Hiff. simpl.
    destruct (decide (q = p)) as [->|Hne].
    + rewrite lookup_delete_eq. split; [done | by intros [? _]].
    + rewrite lookup_delete_ne by done. tauto.
Qed.

Lemma same_entries_absent acc m p :
  same_entries acc m -> m !! p = None ->
  filter (fun e => e.1 ≠ p) acc = acc.
Proof.
  intros [_ Hiff] Hp.
  assert (Forall (fun e => e.1 ≠ p) acc) as HF.
  { apply Forall_forall. intros [q k] Hin Heq. simpl in Heq. subst q.
    apply Hiff in Hin. congruence. }
  clear Hiff. induction HF as [|e acc He _ IH]; [done|].
  rewrite filter_cons_True by done. by f_equal.
Qed.

(** One call keeps the mapping sound and the observer in step with it, and
    never runs into undefined behaviour. *)
Lemma perform_accounting this c acc m w :
  resource_sound this m w -> same_entries acc m ->
  exists rep w' m',
    perform this c w = Some (rep, w') /\
    resource_sound this m' w' /\
    same_entries (live_handles acc [(c, rep)]) m'.
Proof.
  intros [Hres Hsub] Hacc. destruct c as [r bytes al | p bytes al]; simpl.
  - rewrite (do_allocate_run _ _ _ _ _ _ Hres).
    case_decide as Hd.
    { exists (Raised bad_alloc), w, m. split_and!; done. }
    assert (heap w !! r = None) as Hr.
    { destruct (heap w !! r) eqn:?; [|done]. exfalso. apply Hd. right. by eexists. }
    assert (m !! r = None) as Hm.
    { destruct (m !! r) eqn:Hm; [|done].
      destruct (Hsub r) as [b Hb]; [eauto | congruence]. }
    assert (forall g, resource_sound this (<[r := bytes]> m)
                        (allocated this (mkResource m) r bytes g w)) as Hs'.
    { intros g. split; simpl; [by rewrite lookup_insert_eq|].
      intros q Hq. destruct (decide (q = r)) as [->|Hne].
      * rewrite lookup_insert_eq. eauto.
      * rewrite lookup_insert_ne in Hq by congruence.
        rewrite lookup_insert_ne by congruence. auto. }
    cbn [allocated_blocks_]. rewrite Hm.
    destruct (node_grants w) as [|[] g].
    + eexists _, _, _. split; [reflexivity|]. split; [apply Hs'|].
      by apply same_entries_fresh.
    + eexists _, _, _. split; [reflexivity|]. split; [apply Hs'|].
      by apply same_entries_fresh.
    + exists (Raised bad_alloc), (leaked r bytes g w), m.
      split; [reflexivity|]. split; [|done]. split; [done|].
      intros q Hq. simpl. destruct (decide (q = r)) as [->|Hne].
      * rewrite lookup_insert_eq. eauto.
      * rewrite lookup_insert_ne by congruence. auto.
  - unfold do_deallocate, free. run. rewrite Hres. simpl.
    destruct (m !! p) as [n|] eqn:Hp; simpl.
    + destruct (p =? NULL) eqn:Hnull; simpl.
      * eexists _, _, _. split; [reflexivity|]. split.
        -- split; simpl; [by rewrite lookup_insert_eq|].
           intros q Hq. apply Hsub. apply lookup_delete_is_Some in Hq. tauto.
        -- by apply same_entries_erase.
      * destruct (Hsub p) as [b Hb]; [eauto|]. rewrite Hb. simpl.
        eexists _, _, _. split; [reflexivity|]. split.
        -- split; simpl; [by rewrite lookup_insert_eq|].
           intros q Hq. apply lookup_delete_is_Some in Hq as [Hne Hq].
           rewrite lookup_delete_ne by done. auto.
        -- by apply same_entries_erase.
    + exists Done, w, m. split_and!; try done.
      by rewrite (same_entries_absent acc m p).
Qed.

Lemma perform_all_accounting this cs : forall acc m w,
  resource_sound this m w -> same_entries acc m ->
  exists reps w' m',
    perform_all this cs w = Some (reps, w') /\
    length reps = length cs /\
    resource_sound this m' w' /\
    same_entries (live_handles acc (zip cs reps)) m'.
Proof.
  induction cs as [|c cs IH]; intros acc m w Hs He; simpl.
  - exists [], w, m. done.
  - destruct (perform_accounting this c acc m w Hs He) as (rep & w1 & m1 & -> & Hs1 & He1).
    destruct (IH _ _ _ Hs1 He1) as (reps & w2 & m2 & -> & Hlen & Hs2 & He2).
    exists (rep :: reps), w2, m2. split_and!; [done | simpl; lia | done |].
    simpl in *. destruct c, rep; exact He2.
Qed.

(** C1: whatever calls are made on a newly created resource, and whatever
    the runtime answers, every call returns or throws (none is undefined),
    and afterwards the mapping holds exactly the handles that allocate
    returned and deallocate did not take back since: each of them once, with
    the size it was requested with. *)
Theorem accounting_invariant this cs w :
  resources w !! this = Some (mkResource ∅) ->
  exists reps w' m',
    perform_all this cs w = Some (reps, w') /\
    length reps = length cs /\
    resources w' !! this = Some (mkResource m') /\
    NoDup (live_handles [] (zip cs reps)).*1 /\
    (forall p n, m' !! p = Some n <-> (p, n) ∈ live_handles [] (zip cs reps)) /\
    dom m' = list_to_set (live_handles [] (zip cs reps)).*1.
Proof.
  intros Hres.
  destruct (perform_all_accounting this cs [] ∅ w) as (reps & w' & m' & Hrun & Hlen & [Hr _] & [Hnd Hiff]).
  - split; [done|]. intros p [n Hn]. by rewrite lookup_empty in Hn.
  - split; [constructor|]. intros p n. rewrite lookup_empty. split; [done|].
    intros Hin. by apply elem_of_nil in Hin.
  - exists reps, w', m'. split_and!; try done.
    apply set_eq. intros p. rewrite elem_of_dom, elem_of_list_to_set, list_elem_of_fmap.
    split.
    + intros [n Hn]. exists (p, n). split; [done|]. by apply Hiff.
    + intros [[q n] [-> Hin]]. exists n. by apply Hiff.
Qed.

(** ** The resource: release of what is left on destruction *)

Lemma sumZ_cons x l : sumZ (x :: l) = x + sumZ l.
Proof. reflexivity. Qed.

Lemma sumZ_perm l1 l2 : l1 ≡ₚ l2 -> sumZ l1 = sumZ l2.
Proof. induction 1; simpl; lia. Qed.

Lemma lookup_foldl_delete {V} (l : list (Z * Z)) : forall (h : gmap Z V) k,
  foldl (fun h e => delete e.1 h) h l !! k
  = if decide (k ∈ l.*1) then None else h !! k.
Proof.
  induction l as [|[p n] l IH]; intros h k.
  - done.
  - cbn [foldl]. rewrite IH, fmap_cons. cbn [fst].
    destruct (decide (k ∈ l.*1)) as [Hin|Hin].
    + rewrite decide_True; [done | by right].
    + destruct (decide (k = p)) as [->|Hne].
      * rewrite decide_True by left. apply lookup_delete_eq.
      * rewrite decide_False; [by rewrite lookup_delete_ne|].
        intros [?|?]%elem_of_cons; done.
Qed.

(** The loop of the destructor. *)
Lemma free_each (l : list (Z * Z)) : forall w,
  NoDup l.*1 ->
  (forall p n, (p, n) ∈ l ->
     p ≠ NULL /\ exists b, heap w !! p = Some b /\ blk_bytes b = n) ->
  for_each l (fun '(p, _) => free p) w
  = Ok tt (mkWorld (foldl (fun h e => delete e.1 h) (heap w) l)
             (released w + sumZ l.*2) (resources w) (vectors w) (node_grants w)).
Proof.
  induction l as [|[p n] l IH]; intros w Hnd Hl.
  - simpl. unfold ret. rewrite Z.add_0_r. by rewrite world_eta.
  - rewrite !fmap_cons in *. cbn [fst snd] in *.
    apply NoDup_cons in Hnd as [Hp Hnd].
    destruct (Hl p n) as (Hnull & b & Hb & Hn); [by left|].
    cbn [for_each foldl]. unfold bind at 1, free at 1.
    apply Z.eqb_neq in Hnull. rewrite Hnull, Hb.
    rewrite IH; [| done |].
    + unfold sumZ. cbn. f_equal. f_equal. lia.
    + intros q k Hq. destruct (Hl q k) as (Hq0 & c & Hc & Hk); [by right|].
      split; [done|]. exists c. split; [|done]. cbn.
      rewrite lookup_delete_ne; [done|]. intros ->. apply Hp.
      apply list_elem_of_fmap. by exists (q, k).
Qed.

Lemma resource_dtor_tracks this h0 m w :
  resources w !! this = Some (mkResource m) -> tracks h0 m w ->
  resource_dtor this w
  = Ok tt (mkWorld h0 (released w + sumZ (map_to_list m).*2)
             (<[this := mkResource ∅]> (resources w)) (vectors w) (node_grants w)).
Proof.
  intros Hres [Hin Hout]. unfold resource_dtor. run. rewrite Hres. simpl.
  rewrite free_each.
  - unfold set_resources. simpl. do 2 f_equal. apply map_eq. intros k.
    rewrite lookup_foldl_delete. case_decide as Hk.
    + apply list_elem_of_fmap in Hk as [[q n] [-> Hq]].
      apply elem_of_map_to_list in Hq. destruct (Hin _ _ Hq) as (_ & Hh & _).
      simpl. by rewrite Hh.
    + apply Hout. destruct (m !! k) as [n|] eqn:Hm; [|done].
      exfalso. apply Hk. apply list_elem_of_fmap. exists (k, n).
      split; [done|]. by apply elem_of_map_to_list.
  - apply NoDup_fst_map_to_list.
  - intros p n Hp. apply elem_of_map_to_list in Hp.
    destruct (Hin _ _ Hp) as (? & _ & ?). done.
Qed.

Lemma do_allocate_tracks this h0 m w r bytes al p w' :
  resources w !! this = Some (mkResource m) -> tracks h0 m w ->
  do_allocate this r bytes al w = Ok p w' ->
  p = r /\ m !! r = None /\
  resources w' !! this = Some (mkResource (<[r := bytes]> m)) /\
  tracks h0 (<[r := bytes]> m) w' /\ released w' = released w.
Proof.
  intros Hres [Hin Hout] (-> & Hnull & Hr & mr & g & Hmr & -> & _)%do_allocate_ok.
  rewrite Hres in Hmr. injection Hmr as <-. unfold allocated. simpl.
  assert (m !! r = None) as Hm.
  { destruct (m !! r) as [n|] eqn:Hm; [|done].
    destruct (Hin _ _ Hm) as (_ & _ & b & Hb & _). congruence. }
  split_and!; try done.
  - by rewrite lookup_insert_eq.
  - split; simpl.
    + intros q n. destruct (decide (q = r)) as [->|Hne].
      * rewrite !lookup_insert_eq. intros [= <-].
        split_and!; [done | by rewrite <- Hout | by eexists].
      * rewrite !lookup_insert_ne by congruence. apply Hin.
    + intros q. destruct (decide (q = r)) as [->|Hne].
      * by rewrite lookup_insert_eq.
      * rewrite !lookup_insert_ne by congruence. apply Hout.
Qed.

Lemma allocate_all_tracks this al h0 reqs : forall m w ps w',
  resources w !! this = Some (mkResource m) -> tracks h0 m w ->
  allocate_all this al reqs w = Ok ps w' ->
  exists m',
    resources w' !! this = Some (mkResource m') /\ tracks h0 m' w' /\
    released w' = released w /\ ps = reqs.*1 /\
    sumZ (map_to_list m').*2 = sumZ (map_to_list m).*2 + sumZ reqs.*2.
Proof.
  induction reqs as [|[r bytes] reqs IH]; intros m w ps w' Hres Htr.
  - simpl. unfold ret. intros [= <- <-]. exists m. split_and!; try done. lia.
  - cbn [allocate_all]. unfold bind at 1.
    destruct (do_allocate this r bytes al w) as [p w1|e w1|] eqn:Hal; [|done..].
    destruct (do_allocate_tracks _ _ _ _ _ _ _ _ _ Hres Htr Hal)
      as (-> & Hfresh & Hres1 & Htr1 & Hrel1).
    unfold bind at 1.
    destruct (allocate_all this al reqs w1) as [ps1 w2|e w2|] eqn:Hrest; [|done..].
    unfold ret. intros [= <- <-].
    destruct (IH _ _ _ _ Hres1 Htr1 Hrest) as (m' & Hres2 & Htr2 & Hrel2 & -> & Hsum).
    exists m'. split_and!; try done; [congruence|].
    rewrite Hsum. rewrite (sumZ_perm _ _ (fmap_Permutation snd _ _
      (map_to_list_insert m r bytes Hfresh))).
    rewrite !fmap_cons, !sumZ_cons. cbn [snd]. lia.
Qed.

(** C2: on a newly created resource, [N] allocate calls that all succeed and
    no deallocate, then the destructor: it returns normally, every block
    goes back to the runtime (its heap is what it was before the first
    call), the bytes released are the sum of the [N] requested sizes, the
    mapping is empty, and nothing is outstanding if nothing was before. *)
Theorem leak_backstop this al reqs w ps w1 :
  resources w !! this = Some (mkResource ∅) ->
  allocate_all this al reqs w = Ok ps w1 ->
  exists w2,
    resource_dtor this w1 = Ok tt w2 /\
    resources w2 !! this = Some (mkResource ∅) /\
    heap w2 = heap w /\
    released w2 = released w + sumZ reqs.*2 /\
    (heap w = ∅ -> outstanding w2 = 0).
Proof.
  intros Hres Hall.
  destruct (allocate_all_tracks this al (heap w) reqs ∅ w ps w1 Hres) as
    (m & Hres1 & Htr & Hrel & _ & Hsum); [|done|].
  { split; [intros p n Hp; by rewrite lookup_empty in Hp | done]. }
  eexists. split; [by apply resource_dtor_tracks|]. simpl.
  split_and!.
  - by rewrite lookup_insert_eq.
  - done.
  - rewrite Hsum, Hrel, map_to_list_empty. simpl. lia.
  - intros ->. unfold outstanding. simpl. by rewrite map_to_list_empty.
Qed.

(** ** Exceptions *)

Lemma nothrow_ret {A} (a : A) : nothrow (ret a).
Proof. by intros w e w'. Qed.

Lemma nothrow_bind {A B} (m : M A) (k : A -> M B) :
  nothrow m -> (forall a, nothrow (k a)) -> nothrow (bind m k).
Proof.
  intros Hm Hk w e w'. unfold bind. destruct (m w) as [a w1|e1 w1|] eqn:Hmw.
  - apply Hk.
  - by destruct (Hm w e1 w1).
  - done.
Qed.

Lemma nothrow_for_each {A} (l : list A) body :
  (forall a, nothrow (body a)) -> nothrow (for_each l body).
Proof.
  intros Hb. induction l as [|a l IH]; simpl.
  - apply nothrow_ret.
  - apply nothrow_bind; auto.
Qed.

Lemma nothrow_get_vector this : nothrow (get_vector this).
Proof. intros w e w'. unfold get_vector. by destruct (vectors w !! this). Qed.

Lemma nothrow_put_vector this v : nothrow (put_vector this v).
Proof. by intros w e w'. Qed.

Lemma nothrow_get_resource this : nothrow (get_resource this).
Proof. intros w e w'. unfold get_resource. by destruct (resources w !! this). Qed.

Lemma nothrow_put_resource this mr : nothrow (put_resource this mr).
Proof. by intros w e w'. Qed.

Lemma nothrow_free p : nothrow (free p).
Proof.
  intros w e w'. unfold free. destruct (p =? NULL); [done|].
  by destruct (heap w !! p).
Qed.

Lemma nothrow_construct p i x : nothrow (construct p i x).
Proof.
  intros w e w'. unfold construct. destruct (heap w !! p); [|done].
  by destruct (_ && _).
Qed.

Lemma nothrow_load p i : nothrow (load p i).
Proof.
  intros w e w'. unfold load. destruct (heap w !! p) as [b|]; [|done].
  destruct (0 <=? i); [|done]. by destruct (blk_slots b !! Z.to_nat i) as [[?|]|].
Qed.

Lemma nothrow_destroy p i : nothrow (destroy p i).
Proof.
  intros w e w'. unfold destroy. destruct (heap w !! p) as [b|]; [|done].
  destruct (0 <=? i); [|done]. by destruct (blk_slots b !! Z.to_nat i) as [[?|]|].
Qed.

Lemma nothrow_as_array p n : nothrow (as_array p n).
Proof. intros w e w'. unfold as_array. by destruct (heap w !! p). Qed.

Lemma nothrow_do_deallocate this p bytes al : nothrow (do_deallocate this p bytes al).
Proof.
  unfold do_deallocate. apply nothrow_bind; [apply nothrow_get_resource|].
  intros mr. destruct (allocated_blocks_ mr !! p); [|apply nothrow_ret].
  apply nothrow_bind; [apply nothrow_free|]. intros _. apply nothrow_put_resource.
Qed.

Create HintDb nothrow.
#[local] Hint Resolve nothrow_ret nothrow_get_vector nothrow_put_vector
  nothrow_get_resource nothrow_put_resource nothrow_free nothrow_construct
  nothrow_load nothrow_destroy nothrow_as_array nothrow_do_deallocate : nothrow.

Ltac nothrow := repeat first
  [ apply nothrow_bind; [|intros ?]
  | apply nothrow_for_each; intros ?
  | match goal with |- nothrow (if ?c then _ else _) => destruct c end
  | solve [auto with nothrow] ].

Lemma nothrow_elim {A} (m : M A) w e w' : nothrow m -> m w = Throw e w' -> False.
Proof. intros Hm. apply Hm. Qed.

Ltac absurd_throw H := exfalso; eapply nothrow_elim; [|exact H]; nothrow.

Lemma bind_throw_inv {A B} (m : M A) (k : A -> M B) w e w' :
  bind m k w = Throw e w' ->
  m w = Throw e w' \/ exists a w1, m w = Ok a w1 /\ k a w1 = Throw e w'.
Proof.
  unfold bind. destruct (m w) as [a w1|e1 w1|]; intros H.
  - right. by exists a, w1.
  - left. by injection H as -> ->.
  - done.
Qed.

(** An exception out of [allocate] leaves the state as it was, but for a
    block the runtime has provided and the map could not record. *)
Lemma do_allocate_throw this r bytes al w e w' :
  do_allocate this r bytes al w = Throw e w' -> after_failure r bytes w w'.
Proof.
  intros (_ & [[-> _]|(? & ? & mr & g & _ & _ & ? & ->)])%do_allocate_raises.
  - by left.
  - right. split_and!; try done. by exists g.
Qed.

Lemma after_failure_frame r bytes w w' :
  after_failure r bytes w w' ->
  vectors w' = vectors w /\ resources w' = resources w /\
  released w' = released w /\
  (forall q, q ≠ r -> heap w' !! q = heap w !! q) /\
  (forall q b, heap w !! q = Some b -> heap w' !! q = Some b).
Proof.
  intros [->|(Hr0 & Hr & g & Hg & ->)]; [done|]. simpl. split_and!; try done.
  - intros q Hq. by rewrite lookup_insert_ne.
  - intros q b Hb. rewrite lookup_insert_ne; [done | congruence].
Qed.

Lemma pa_allocate_throw mr r n w e w' :
  pa_allocate mr r n w = Throw e w' ->
  after_failure r (n * sizeof_T) w w' /\
  match e with
  | bad_array_new_length => SIZE_MAX / sizeof_T < n /\ w' = w
  | bad_alloc => n <= SIZE_MAX / sizeof_T
  end.
Proof.
  unfold pa_allocate. destruct (Z.ltb_spec (SIZE_MAX / sizeof_T) n) as [Hbig|Hfit].
  { intros [= <- <-]. split; [by left | done]. }
  intros [H|(p & w1 & _ & H)]%bind_throw_inv; [|absurd_throw H].
  split; [by apply do_allocate_throw in H|].
  by apply do_allocate_raises in H as [-> _].
Qed.

Lemma grow_throw this r w e w' :
  grow this r w = Throw e w' ->
  exists v, vectors w !! this = Some v /\
    after_failure r (new_cap (capacity_ v) * sizeof_T) w w' /\
    pa_allocate (alloc_ v) r (new_cap (capacity_ v)) w = Throw e w'.
Proof.
  unfold grow. intros [H|(v & w1 & Hv & H)]%bind_throw_inv.
  { by apply nothrow_get_vector in H. }
  unfold get_vector in Hv. destruct (vectors w !! this) as [v0|] eqn:Hv0; [|done].
  apply Ok_inj in Hv as [<- <-]. exists v0. split; [done|].
  fold (new_cap (capacity_ v0)) in H.
  apply bind_throw_inv in H as [H|(p & w2 & _ & H)].
  - split; [|done]. by apply pa_allocate_throw in H as [? _].
  - unfold pa_deallocate in H. absurd_throw H.
Qed.

Lemma nothrow_read a : nothrow (read a).
Proof. destruct a; [apply nothrow_ret | apply nothrow_load]. Qed.

Lemma read_ok a w x w1 : read a w = Ok x w1 -> w1 = w.
Proof.
  destruct a as [y|p i]; simpl.
  - by intros [_ <-]%Ok_inj.
  - unfold load. destruct (heap w !! p) as [b|]; [|done].
    destruct (0 <=? i); [|done].
    destruct (blk_slots b !! Z.to_nat i) as [[?|]|]; [|done..].
    by intros [_ <-]%Ok_inj.
Qed.

(** An exception leaves [push_back] only out of [grow]. *)
Lemma push_back_throw this r a w e w' :
  push_back this r a w = Throw e w' ->
  exists v, vectors w !! this = Some v /\ capacity_ v <= size_ v /\
    after_failure r (new_cap (capacity_ v) * sizeof_T) w w' /\
    pa_allocate (alloc_ v) r (new_cap (capacity_ v)) w = Throw e w'.
Proof.
  unfold push_back. intros [H|(x0 & w0 & Hrd & H)]%bind_throw_inv.
  { by apply nothrow_read in H. }
  apply read_ok in Hrd as ->.
  apply bind_throw_inv in H as [H|(v & w1 & Hv & H)].
  { by apply nothrow_get_vector in H. }
  unfold get_vector in Hv. destruct (vectors w !! this) as [v0|] eqn:Hv0; [|done].
  apply Ok_inj in Hv as [<- <-].
  apply bind_throw_inv in H as [H|(u & w2 & _ & H)].
  - destruct (Z.leb_spec (capacity_ v0) (size_ v0)); [|done].
    apply grow_throw in H as (v & Hv & Hf & Hpa).
    rewrite Hv0 in Hv. injection Hv as <-. by exists v0.
  - exfalso. apply bind_throw_inv in H as [H|(v & w1 & _ & H)].
    { by apply nothrow_get_vector in H. }
    apply bind_throw_inv in H as [H|(x & w3 & _ & H)].
    { by apply nothrow_read in H. }
    absurd_throw H.
Qed.

(** ** Element slots: what the three primitives do on a known block *)

Lemma block_eta (b : block) : mkBlock (blk_bytes b) (blk_slots b) = b.
Proof. by destruct b. Qed.

Lemma load_known p k b w :
  heap w !! p = Some b ->
  load p (Z.of_nat k) w
  = match blk_slots b !! k with Some (Some x) => Ok x w | _ => UB end.
Proof.
  intros Hb. unfold load. rewrite Hb, Nat2Z.id.
  by destruct (Z.leb_spec 0 (Z.of_nat k)); [|lia].
Qed.

Lemma construct_known p k x b w :
  heap w !! p = Some b ->
  construct p (Z.of_nat k) x w
  = if decide (k < length (blk_slots b))%nat
    then Ok tt (set_heap (<[p := mkBlock (blk_bytes b)
                              (<[k := Some x]> (blk_slots b))]> (heap w)) w)
    else UB.
Proof.
  intros Hb. unfold construct. rewrite Hb, Nat2Z.id.
  destruct (Z.leb_spec 0 (Z.of_nat k)); [|lia]. simpl.
  destruct (Z.ltb_spec (Z.of_nat k) (Z.of_nat (length (blk_slots b))));
    case_decide; done || lia.
Qed.

Lemma destroy_known p k b w :
  heap w !! p = Some b ->
  destroy p (Z.of_nat k) w
  = match blk_slots b !! k with
    | Some (Some _) =>
        Ok tt (set_heap (<[p := mkBlock (blk_bytes b)
                              (<[k := None]> (blk_slots b))]> (heap w)) w)
    | _ => UB
    end.
Proof.
  intros Hb. unfold destroy. rewrite Hb, Nat2Z.id.
  by destruct (Z.leb_spec 0 (Z.of_nat k)); [|lia].
Qed.

Lemma seqZ_S (k n : nat) :
  seqZ (Z.of_nat k) (Z.of_nat (S n)) = Z.of_nat k :: seqZ (Z.of_nat (S k)) (Z.of_nat n).
Proof.
  rewrite seqZ_cons by lia. f_equal. f_equal; lia.
Qed.

Lemma lookup_middle {A} (l1 l2 : list A) x k :
  length l1 = k -> (l1 ++ x :: l2) !! k = Some x.
Proof. intros <-. apply list_lookup_middle. done. Qed.

Lemma insert_middle {A} (l1 l2 : list A) x y k :
  length l1 = k -> <[k := y]> (l1 ++ x :: l2) = l1 ++ y :: l2.
Proof.
  intros <-. rewrite insert_app_r_alt by lia. by rewrite Nat.sub_diag.
Qed.

Lemma same_except_refl ps w : same_except ps w w.
Proof. by split_and!. Qed.

Lemma same_except_trans ps w1 w2 w3 :
  same_except ps w1 w2 -> same_except ps w2 w3 -> same_except ps w1 w3.
Proof.
  intros (? & ? & ? & H12) (? & ? & ? & H23). split_and!; try congruence.
  intros p Hp. rewrite H23, H12; done.
Qed.

(** The loop of [clear]: the objects in slots [k, k + |ys|) of the block
    are destroyed, nothing else changes. *)
Lemma destroy_loop p ys : forall k w b tl,
  heap w !! p = Some b ->
  blk_slots b = replicate k None ++ (Some <$> ys) ++ tl ->
  for_each (seqZ (Z.of_nat k) (Z.of_nat (length ys))) (fun i => destroy p i) w
  = Ok tt (set_heap (<[p := mkBlock (blk_bytes b)
                          (replicate (k + length ys) None ++ tl)]> (heap w)) w).
Proof.
  induction ys as [|y ys IH]; intros k w b tl Hb Hs.
  - simpl. unfold ret, set_heap. rewrite Nat.add_0_r. simpl in Hs. rewrite <- Hs.
    rewrite block_eta, insert_id by done. by rewrite world_eta.
  - cbn [length]. rewrite seqZ_S. cbn [for_each]. unfold bind at 1.
    rewrite (destroy_known _ _ _ _ Hb), Hs.
    rewrite fmap_cons. cbn [app].
    rewrite lookup_middle by apply length_replicate.
    rewrite insert_middle by apply length_replicate.
    erewrite (IH (S k) _ _ tl); cycle 1.
    { simpl. apply lookup_insert_eq. }
    { cbn [blk_slots]. rewrite replicate_S_end. by rewrite <- app_assoc. }
    unfold set_heap. cbn [heap released resources vectors blk_bytes blk_slots].
    rewrite insert_insert_eq.
    replace (k + S (length ys))%nat with (S k + length ys)%nat by lia. done.
Qed.

(** The loop of [grow]: the objects in slots [k, k + |ys|) of the old block
    move to the same slots of the new block.  If the loop returns, the new
    block was large enough. *)
Lemma move_loop old new ys : forall k w w' bo bn pre rest tl,
  old ≠ new ->
  heap w !! old = Some bo ->
  blk_slots bo = replicate k None ++ (Some <$> ys) ++ tl ->
  heap w !! new = Some bn ->
  blk_slots bn = pre ++ rest -> length pre = k ->
  for_each (seqZ (Z.of_nat k) (Z.of_nat (length ys)))
    (fun i => let! x := load old i in construct new i x ;; destroy old i) w
  = Ok tt w' ->
  (length ys <= length rest)%nat /\
  same_except [old; new] w w' /\
  heap w' !! old
  = Some (mkBlock (blk_bytes bo) (replicate (k + length ys) None ++ tl)) /\
  heap w' !! new
  = Some (mkBlock (blk_bytes bn) (pre ++ (Some <$> ys) ++ drop (length ys) rest)).
Proof.
  induction ys as [|y ys IH]; intros k w w' bo bn pre rest tl Hne Ho Hso Hn Hsn Hk.
  - simpl. unfold ret. intros [= <-]. split_and!.
    + lia.
    + apply same_except_refl.
    + rewrite Nat.add_0_r. simpl in Hso. by rewrite <- Hso, block_eta.
    + rewrite drop_0. by rewrite <- Hsn, block_eta.
  - cbn [length]. rewrite seqZ_S. cbn [for_each].
    intros (u & w3 & Hbody & Hrest)%bind_ok_inv.
    apply bind_ok_inv in Hbody as (x & w1 & Hload & Hbody).
    rewrite (load_known _ _ _ _ Ho), Hso in Hload.
    rewrite fmap_cons in Hload. cbn [app] in Hload.
    rewrite lookup_middle in Hload by apply length_replicate.
    injection Hload as <- <-.
    apply bind_ok_inv in Hbody as (u1 & w2 & Hcons & Hdes).
    rewrite (construct_known _ _ _ _ _ Hn) in Hcons.
    case_decide as Hlen; [|done]. injection Hcons as _ <-.
    rewrite Hsn, length_app in Hlen.
    destruct rest as [|s rest]; [simpl in Hlen; lia|].
    assert (heap (set_heap (<[new := mkBlock (blk_bytes bn)
              (<[k := Some y]> (blk_slots bn))]> (heap w)) w) !! old = Some bo) as Ho2.
    { simpl. by rewrite lookup_insert_ne. }
    rewrite (destroy_known _ _ _ _ Ho2), Hso in Hdes.
    rewrite fmap_cons in Hdes. cbn [app] in Hdes.
    rewrite lookup_middle in Hdes by apply length_replicate.
    rewrite insert_middle in Hdes by apply length_replicate.
    injection Hdes as _ <-.
    rewrite Hsn, insert_middle in Hrest by done.
    eapply (IH (S k) _ _ _ _ (pre ++ [Some y]) rest tl) in Hrest; cycle 1.
    { done. }
    { simpl. apply lookup_insert_eq. }
    { cbn [blk_slots]. rewrite replicate_S_end. by rewrite <- app_assoc. }
    { simpl. rewrite lookup_insert_ne by done. apply lookup_insert_eq. }
    { simpl. by rewrite <- app_assoc. }
    { rewrite length_app. simpl. lia. }
    destruct Hrest as (Hle & Hsame & Hold & Hnew). simpl in Hold, Hnew.
    split_and!.
    + simpl. lia.
    + eapply same_except_trans; [|exact Hsame].
      split_and!; try done. intros p Hp. simpl.
      rewrite !lookup_insert_ne; [done|..]; intros ->; apply Hp;
        rewrite !elem_of_cons; auto.
    + rewrite Hold.
      replace (k + S (length ys))%nat with (S (k + length ys)) by lia. done.
    + rewrite Hnew. rewrite <- app_assoc. done.
Qed.

(** ** The allocator interface of the array *)

Lemma pa_allocate_ok mr r n w p w1 :
  pa_allocate mr r n w = Ok p w1 ->
  p = r /\ r ≠ NULL /\ heap w !! r = None /\ n <= SIZE_MAX / sizeof_T /\
  exists mr0, resources w !! mr = Some mr0 /\
    heap w1 = <[r := mkBlock (n * sizeof_T) (replicate (Z.to_nat n) None)]> (heap w) /\
    released w1 = released w /\
    resources w1
    = <[mr := mkResource (<[r := n * sizeof_T]> (allocated_blocks_ mr0))]> (resources w) /\
    vectors w1 = vectors w.
Proof.
  unfold pa_allocate. destruct (Z.ltb_spec (SIZE_MAX / sizeof_T) n); [done|].
  intros (q & w2 & Hal & H1)%bind_ok_inv.
  apply bind_ok_inv in H1 as (u & w3 & Harr & Hret). injection Hret as <- <-.
  apply do_allocate_ok in Hal as (-> & Hnull & Hr & mr1 & g & Hres & -> & _).
  unfold as_array, allocated in Harr. simpl in Harr.
  rewrite lookup_insert_eq in Harr.
  injection Harr as _ <-. simpl. rewrite insert_insert_eq.
  split_and!; try done. by exists mr1.
Qed.

Lemma do_deallocate_frame mr p bytes al w w1 :
  do_deallocate mr p bytes al w = Ok tt w1 ->
  vectors w1 = vectors w /\
  (forall q, q ≠ p -> heap w1 !! q = heap w !! q) /\
  (forall id, id ≠ mr -> resources w1 !! id = resources w !! id).
Proof.
  unfold do_deallocate. intros (mr0 & w2 & Hget & H)%bind_ok_inv.
  unfold get_resource in Hget. destruct (resources w !! mr); [|done].
  injection Hget as <- <-.
  destruct (allocated_blocks_ _ !! p).
  - apply bind_ok_inv in H as (u & w3 & Hfree & Hput).
    unfold put_resource in Hput. injection Hput as <-.
    unfold free in Hfree. destruct (p =? NULL).
    + injection Hfree as _ <-. simpl. split_and!; try done.
      intros id Hid. by rewrite lookup_insert_ne.
    + destruct (heap w !! p); [|done]. injection Hfree as _ <-. simpl.
      split_and!; try done.
      * intros q Hq. by rewrite lookup_delete_ne.
      * intros id Hid. by rewrite lookup_insert_ne.
  - injection H as <-. done.
Qed.

(** ** The array: growth and append *)

Lemma wrap_double c :
  0 < c <= SIZE_MAX -> c < wrap (c * 2) -> wrap (c * 2) = 2 * c.
Proof.
  unfold wrap, SIZE_MAX. change (2 ^ 64) with 18446744073709551616.
  intros Hc Hlt. rewrite Z.mod_small; [lia|].
  destruct (Z.lt_ge_cases (c * 2) 18446744073709551616) as [|Hge]; [lia|].
  exfalso.
  assert ((c * 2) mod 18446744073709551616 = c * 2 - 18446744073709551616) as Heq.
  { symmetry. apply (Z.mod_unique _ _ 1); lia. }
  lia.
Qed.

Lemma wrap_range z : 0 <= wrap z <= SIZE_MAX.
Proof.
  unfold wrap, SIZE_MAX. change (2 ^ 64) with 18446744073709551616.
  pose proof (Z.mod_pos_bound z 18446744073709551616). lia.
Qed.

Lemma wrap_small z : 0 <= z <= SIZE_MAX -> wrap z = z.
Proof.
  unfold wrap, SIZE_MAX. change (2 ^ 64) with 18446744073709551616.
  intros. apply Z.mod_small. lia.
Qed.

Lemma get_vector_ok this w v w1 :
  get_vector this w = Ok v w1 -> vectors w !! this = Some v /\ w1 = w.
Proof.
  unfold get_vector. destruct (vectors w !! this); [|done]. by intros [= <- <-].
Qed.

Lemma grow_ok this r v xs w w1 :
  vectors w !! this = Some v -> vec_holds v xs w -> capacity_ v <= size_ v ->
  grow this r w = Ok tt w1 ->
  let new_cap := (if capacity_ v =? 0 then 1 else wrap (capacity_ v * 2)) in
  size_ v <= new_cap /\ r ≠ NULL /\ heap w !! r = None /\
  vectors w1 = <[this := mkVector r (size_ v) new_cap (alloc_ v)]> (vectors w) /\
  heap w1 !! r
  = Some (mkBlock (new_cap * sizeof_T)
            ((Some <$> xs) ++ replicate (Z.to_nat (new_cap - size_ v)) None)).
Proof.
  intros Hv (Hsize & Hcap & Hbuf) Hfull. unfold grow.
  intros (v0 & w0 & Hget & H)%bind_ok_inv.
  apply get_vector_ok in Hget as [Hv0 ->]. rewrite Hv in Hv0. injection Hv0 as <-.
  set (new_cap := if capacity_ v =? 0 then 1 else wrap (capacity_ v * 2)) in *.
  assert (0 <= new_cap) as Hnc.
  { subst new_cap. destruct (capacity_ v =? 0); [lia | apply wrap_range]. }
  apply bind_ok_inv in H as (p & wa & Hpa & H).
  apply pa_allocate_ok in Hpa as (-> & Hr0 & Hr & _ & mr0 & Hmr & Hha & Hrela & Hresa & Hva).
  apply bind_ok_inv in H as ([] & wl & Hloop & H).
  apply bind_ok_inv in H as ([] & wd & Hde & Hput).
  unfold put_vector in Hput. apply Ok_inj in Hput as [_ <-]. simpl.
  rewrite Hsize in Hloop.
  destruct Hbuf as [[Hnull Hc0]|(Hnn & b & Hb & Hslots)].
  - assert (xs = []) as -> by (destruct xs; [done | simpl in *; lia]).
    simpl in Hloop. apply Ok_inj in Hloop as [_ <-].
    rewrite Hnull in Hde. simpl in Hde. apply Ok_inj in Hde as [_ <-].
    rewrite Hva, Hha, lookup_insert_eq. simpl in Hsize.
    rewrite Hsize, Z.sub_0_r. split_and!; done || lia.
  - assert (data_ v ≠ r) as Hne by congruence.
    replace (Z.to_nat (capacity_ v - size_ v)) with 0%nat in Hslots by lia.
    eapply (move_loop (data_ v) r xs 0 wa wl b _ [] (replicate (Z.to_nat new_cap) None) [])
      in Hloop; [|done|..]; cycle 1.
    { rewrite Hha. by rewrite lookup_insert_ne. }
    { by rewrite Hslots. }
    { rewrite Hha. apply lookup_insert_eq. }
    { done. }
    { done. }
    destruct Hloop as (Hle & (_ & _ & Hvl & _) & _ & Hnew).
    rewrite length_replicate in Hle.
    apply Z.eqb_neq in Hnn. rewrite Hnn in Hde. unfold pa_deallocate in Hde.
    apply do_deallocate_frame in Hde as (Hvd & Hhd & _).
    rewrite Hhd, Hnew by done. rewrite Hvd, Hvl, Hva.
    rewrite drop_replicate. simpl.
    replace (Z.to_nat new_cap - length xs)%nat with (Z.to_nat (new_cap - size_ v)) by lia.
    split_and!; done || lia.
Qed.

(** After [deallocate] the block is gone or is as it was. *)
Lemma do_deallocate_at mr p bytes al w w1 :
  do_deallocate mr p bytes al w = Ok tt w1 ->
  heap w1 !! p = None \/ heap w1 !! p = heap w !! p.
Proof.
  unfold do_deallocate. intros (mr0 & w2 & Hget & H)%bind_ok_inv.
  unfold get_resource in Hget. destruct (resources w !! mr); [|done].
  apply Ok_inj in Hget as [<- <-].
  destruct (allocated_blocks_ _ !! p).
  - apply bind_ok_inv in H as (u & w3 & Hfree & Hput).
    unfold put_resource in Hput. apply Ok_inj in Hput as [_ <-].
    unfold free in Hfree. destruct (p =? NULL).
    + apply Ok_inj in Hfree as [_ <-]. by right.
    + destruct (heap w !! p); [|done]. apply Ok_inj in Hfree as [_ <-]. simpl.
      left. apply lookup_delete_eq.
  - apply Ok_inj in H as [_ <-]. by right.
Qed.

(** What [grow] leaves of the heap: blocks other than the old and the new
    buffer are as they were, and no object is left in the old buffer,
    whether the resource has released it or not. *)
Lemma grow_heap this r v xs w w1 :
  vectors w !! this = Some v -> vec_holds v xs w -> capacity_ v <= size_ v ->
  grow this r w = Ok tt w1 ->
  (forall q, q ≠ r -> q ≠ data_ v -> heap w1 !! q = heap w !! q) /\
  (data_ v = NULL -> forall q, q ≠ r -> heap w1 !! q = heap w !! q) /\
  (data_ v ≠ NULL -> forall i, load (data_ v) i w1 = UB).
Proof.
  intros Hv (Hsize & Hcap & Hbuf) Hfull. unfold grow.
  intros (v0 & w0 & Hget & H)%bind_ok_inv.
  apply get_vector_ok in Hget as [Hv0 ->]. rewrite Hv in Hv0. injection Hv0 as <-.
  set (new_cap := if capacity_ v =? 0 then 1 else wrap (capacity_ v * 2)) in *.
  apply bind_ok_inv in H as (p & wa & Hpa & H).
  apply pa_allocate_ok in Hpa as (-> & Hr0 & Hr & _ & mr0 & Hmr & Hha & Hrela & Hresa & Hva).
  apply bind_ok_inv in H as ([] & wl & Hloop & H).
  apply bind_ok_inv in H as ([] & wd & Hde & Hput).
  apply Ok_inj in Hput as [_ <-]. rewrite Hsize in Hloop.
  destruct Hbuf as [[Hnull Hc0]|(Hnn & b & Hb & Hslots)].
  - assert (xs = []) as -> by (destruct xs; [done | simpl in *; lia]).
    simpl in Hloop. apply Ok_inj in Hloop as [_ <-].
    rewrite Hnull in Hde. simpl in Hde. apply Ok_inj in Hde as [_ <-].
    split_and!.
    + intros q Hq _. simpl. by rewrite Hha, lookup_insert_ne.
    + intros _ q Hq. simpl. by rewrite Hha, lookup_insert_ne.
    + done.
  - assert (data_ v ≠ r) as Hne by congruence.
    replace (Z.to_nat (capacity_ v - size_ v)) with 0%nat in Hslots by lia.
    eapply (move_loop (data_ v) r xs 0 wa wl b _ [] (replicate (Z.to_nat new_cap) None) [])
      in Hloop; [|done|..]; cycle 1.
    { rewrite Hha. by rewrite lookup_insert_ne. }
    { by rewrite Hslots. }
    { rewrite Hha. apply lookup_insert_eq. }
    { done. }
    { done. }
    destruct Hloop as (_ & (Hrell & Hresl & _ & Hframe) & Hold & _).
    apply Z.eqb_neq in Hnn as Hnn'. rewrite Hnn' in Hde. unfold pa_deallocate in Hde.
    split_and!.
    + intros q Hq Hqd. apply do_deallocate_frame in Hde as (_ & Hhd & _). simpl.
      rewrite Hhd by done. rewrite Hframe.
      * by rewrite Hha, lookup_insert_ne.
      * rewrite !elem_of_cons. intros [?|[?|?%elem_of_nil]]; done.
    + done.
    + intros _ i. unfold load. simpl.
      destruct (do_deallocate_at _ _ _ _ _ _ Hde) as [->| ->]; [done|].
      rewrite Hold. simpl. destruct (0 <=? i); [|done].
      rewrite app_nil_r.
      destruct (replicate _ _ !! _) as [o|] eqn:Ho; [|done].
      apply lookup_replicate in Ho as [-> _]. done.
Qed.

(** The object an argument refers to is the same after [grow], if it is
    still there. *)
Lemma grow_reads this r v xs w w1 a x x' :
  vectors w !! this = Some v -> vec_holds v xs w -> capacity_ v <= size_ v ->
  grow this r w = Ok tt w1 ->
  read a w = Ok x w -> read a w1 = Ok x' w1 -> x' = x.
Proof.
  intros Hv Hh Hfull Hgrow.
  destruct (grow_ok _ _ _ _ _ _ Hv Hh Hfull Hgrow) as (_ & _ & Hr & _).
  destruct (grow_heap _ _ _ _ _ _ Hv Hh Hfull Hgrow) as (Hfr & Hnull & Hold).
  destruct a as [y|p i]; simpl.
  { intros [<- _]%Ok_inj [<- _]%Ok_inj. done. }
  destruct (decide (p = r)) as [->|Hpr].
  { unfold load at 1. by rewrite Hr. }
  assert (data_ v ≠ NULL -> p ≠ data_ v -> heap w1 !! p = heap w !! p) as Hsame1
    by (intros; by apply Hfr).
  destruct (decide (data_ v = NULL)) as [Hd|Hd].
  - unfold load. rewrite (Hnull Hd p Hpr).
    destruct (heap w !! p) as [b|]; [|done]. destruct (0 <=? i); [|done].
    destruct (blk_slots b !! Z.to_nat i) as [[?|]|]; [|done..].
    intros [<- _]%Ok_inj [<- _]%Ok_inj. done.
  - destruct (decide (p = data_ v)) as [->|Hpd].
    { intros _. by rewrite (Hold Hd i). }
    unfold load. rewrite (Hfr p Hpr Hpd).
    destruct (heap w !! p) as [b|]; [|done]. destruct (0 <=? i); [|done].
    destruct (blk_slots b !! Z.to_nat i) as [[?|]|]; [|done..].
    intros [<- _]%Ok_inj [<- _]%Ok_inj. done.
Qed.

(** The steps of an append that returns. *)
Lemma push_back_inv this r a v w w' :
  vectors w !! this = Some v -> push_back this r a w = Ok tt w' ->
  exists x0 w1 v1 x b1,
    read a w = Ok x0 w /\
    (if capacity_ v <=? size_ v then grow this r w = Ok tt w1 else w1 = w) /\
    vectors w1 !! this = Some v1 /\ read a w1 = Ok x w1 /\
    heap w1 !! data_ v1 = Some b1 /\
    0 <= size_ v1 < Z.of_nat (length (blk_slots b1)) /\
    w' = mkWorld
           (<[data_ v1 := mkBlock (blk_bytes b1)
                (<[Z.to_nat (size_ v1) := Some x]> (blk_slots b1))]> (heap w1))
           (released w1) (resources w1)
           (<[this := mkVector (data_ v1) (wrap (size_ v1 + 1)) (capacity_ v1)
                        (alloc_ v1)]> (vectors w1))
           (node_grants w1).
Proof.
  intros Hv. unfold push_back.
  intros (x0 & w0 & Hrd0 & H)%bind_ok_inv.
  pose proof (read_ok _ _ _ _ Hrd0) as ->.
  apply bind_ok_inv in H as (v0 & w0 & Hget & H).
  apply get_vector_ok in Hget as [Hv0 ->]. rewrite Hv in Hv0. injection Hv0 as <-.
  apply bind_ok_inv in H as ([] & w1 & Hgrow & H).
  apply bind_ok_inv in H as (v1 & w2 & Hget & H).
  apply get_vector_ok in Hget as [Hv1 ->].
  apply bind_ok_inv in H as (x & w2 & Hrd & H).
  pose proof (read_ok _ _ _ _ Hrd) as ->.
  apply bind_ok_inv in H as ([] & w3 & Hcons & Hput).
  apply Ok_inj in Hput as [_ <-].
  unfold construct in Hcons. destruct (heap w1 !! data_ v1) as [b1|] eqn:Hb1; [|done].
  destruct (Z.leb_spec 0 (size_ v1)); [|done].
  destruct (Z.ltb_spec (size_ v1) (Z.of_nat (length (blk_slots b1)))); [|done].
  apply Ok_inj in Hcons as [_ <-].
  exists x0, w1, v1, x, b1. split_and!; try done.
  destruct (capacity_ v <=? size_ v); [done|]. by apply Ok_inj in Hgrow as [_ <-].
Qed.

(** An append that returns adds, at the end, the object its argument
    referred to when the call was made, keeps [vec_holds], and leaves the
    capacity the growth policy prescribes. *)
Lemma push_back_ok this r a v xs w w' :
  vectors w !! this = Some v -> vec_holds v xs w ->
  push_back this r a w = Ok tt w' ->
  exists v' x,
    read a w = Ok x w /\
    vectors w' = <[this := v']> (vectors w) /\
    vec_holds v' (xs ++ [x]) w' /\
    alloc_ v' = alloc_ v /\
    capacity_ v' = next_capacity (size_ v) (capacity_ v) /\
    capacity_ v <= capacity_ v'.
Proof.
  intros Hv Hh Hpush.
  destruct (push_back_inv _ _ _ _ _ _ Hv Hpush)
    as (x0 & w1 & v1 & x & b1 & Hrd0 & Hgrow & Hv1 & Hrd & Hb1 & Hin & ->).
  unfold next_capacity.
  destruct (Z.leb_spec (capacity_ v) (size_ v)) as [Hfull|Hroom].
  - assert (x = x0) as -> by apply (grow_reads _ _ _ _ _ _ _ _ _ Hv Hh Hfull Hgrow Hrd0 Hrd).
    destruct (grow_ok _ _ _ _ _ _ Hv Hh Hfull Hgrow) as (Hle & Hr0 & Hr & Hvs & Hblk).
    set (new_cap := if capacity_ v =? 0 then 1 else wrap (capacity_ v * 2)) in *.
    rewrite Hvs, lookup_insert_eq in Hv1. injection Hv1 as <-. simpl in *.
    destruct Hh as (Hsize & Hcap & _).
    rewrite Hblk in Hb1. injection Hb1 as <-. simpl in Hin.
    rewrite length_app, length_fmap, length_replicate in Hin.
    assert (size_ v < new_cap) as Hlt by lia.
    assert (new_cap = if capacity_ v =? 0 then 1 else 2 * capacity_ v) as Hnew.
    { subst new_cap. destruct (Z.eqb_spec (capacity_ v) 0); [done|].
      apply wrap_double; lia. }
    assert (new_cap <= SIZE_MAX) as Hmax.
    { subst new_cap. destruct (capacity_ v =? 0); [done | apply wrap_range]. }
    eexists _, x0. split; [done|]. split; [|split; [|split; [|split]]].
    + simpl. by rewrite Hvs, insert_insert_eq.
    + split_and!; simpl.
      * rewrite wrap_small by lia. rewrite length_app. simpl. lia.
      * rewrite wrap_small by lia. lia.
      * done.
      * right. split; [done|]. eexists. split; [apply lookup_insert_eq|]. simpl.
        rewrite wrap_small by lia. rewrite Hsize, Nat2Z.id.
        replace (Z.to_nat (new_cap - Z.of_nat (length xs))) with
          (S (Z.to_nat (new_cap - (Z.of_nat (length xs) + 1)))) by lia.
        cbn [replicate]. rewrite insert_middle by (by rewrite length_fmap).
        rewrite fmap_app, <- app_assoc. done.
    + done.
    + simpl. rewrite <- Hnew. done.
    + simpl. lia.
  - subst w1. rewrite Hv in Hv1. injection Hv1 as <-.
    rewrite Hrd0 in Hrd. apply Ok_inj in Hrd as [<- _].
    destruct Hh as (Hsize & Hcap & [[_ Hc0]|(Hnn & b & Hb & Hslots)]); [lia|].
    rewrite Hb in Hb1. injection Hb1 as <-.
    eexists _, x0. split; [done|]. split; [|split; [|split; [|split]]].
    + simpl. done.
    + split_and!; simpl.
      * rewrite wrap_small by lia. rewrite length_app. simpl. lia.
      * rewrite wrap_small by lia. lia.
      * lia.
      * right. split; [done|]. eexists. split; [apply lookup_insert_eq|]. simpl.
        rewrite wrap_small by lia. rewrite Hslots, Hsize, Nat2Z.id.
        replace (Z.to_nat (capacity_ v - Z.of_nat (length xs))) with
          (S (Z.to_nat (capacity_ v - (Z.of_nat (length xs) + 1)))) by lia.
        cbn [replicate]. rewrite insert_middle by (by rewrite length_fmap).
        rewrite fmap_app, <- app_assoc. done.
    + done.
    + done.
    + simpl. lia.
Qed.

Lemma push_back_all_ok this ras : forall v xs w out w',
  vectors w !! this = Some v -> vec_holds v xs w ->
  push_back_all this ras w = Ok out w' ->
  exists v',
    vectors w' !! this = Some v' /\
    vec_holds v' (xs ++ out.*1) w' /\
    alloc_ v' = alloc_ v /\
    capacity_ v <= capacity_ v' /\
    out.*2 = capacities_from (size_ v) (capacity_ v) (length ras) /\
    last (capacity_ v :: out.*2) = Some (capacity_ v') /\
    length out = length ras /\
    (forall k r x, ras !! k = Some (r, Val x) -> out.*1 !! k = Some x).
Proof.
  induction ras as [|[r a] ras IH]; intros v xs w out w' Hv Hh.
  - simpl. intros [<- <-]%Ok_inj. exists v. rewrite app_nil_r.
    split_and!; done || lia.
  - cbn [push_back_all]. intros (x0 & w0 & Hrd0 & H)%bind_ok_inv.
    pose proof (read_ok _ _ _ _ Hrd0) as ->.
    apply bind_ok_inv in H as ([] & w1 & Hpush & H).
    apply bind_ok_inv in H as (v1 & w2 & Hget & H).
    apply get_vector_ok in Hget as [Hv1 ->].
    apply bind_ok_inv in H as (out' & w3 & Hrest & Hret).
    apply Ok_inj in Hret as [<- <-].
    destruct (push_back_ok _ _ _ _ _ _ _ Hv Hh Hpush)
      as (v' & x & Hrd & Hvs & Hh' & Hal & Hc & Hmono).
    rewrite Hrd0 in Hrd. apply Ok_inj in Hrd as [<- _].
    rewrite Hvs, lookup_insert_eq in Hv1. injection Hv1 as <-.
    assert (vectors w1 !! this = Some v') as Hv' by (by rewrite Hvs, lookup_insert_eq).
    destruct (IH _ _ _ _ _ Hv' Hh' Hrest)
      as (v'' & Hv'' & Hh'' & Hal' & Hmono' & Hcs & Hlast & Hlen & Hvals).
    exists v''. rewrite !fmap_cons. cbn [fst snd]. split_and!; try done.
    + rewrite cons_middle, app_assoc. done.
    + congruence.
    + lia.
    + cbn [length capacities_from]. rewrite <- Hc.
      destruct Hh as (Hs & _). destruct Hh' as (Hs' & _).
      rewrite length_app in Hs'. simpl in Hs'.
      replace (size_ v + 1) with (size_ v') by lia. by rewrite <- Hcs.
    + simpl. by rewrite Hlen.
    + intros [|k] r' x; simpl.
      * intros [= -> ->]. simpl in Hrd0. apply Ok_inj in Hrd0 as [<- _]. done.
      * apply Hvals.
Qed.

(** ** The array: reading *)

Lemma range_for_holds p ys : forall k pre tl b w,
  heap w !! p = Some b ->
  blk_slots b = pre ++ (Some <$> ys) ++ tl -> length pre = k ->
  range_for (length ys) (mkIter p (Z.of_nat k))
    (mkIter p (Z.of_nat (k + length ys))) w = Ok ys w.
Proof.
  induction ys as [|y ys IH]; intros k pre tl b w Hb Hs Hk.
  - simpl. unfold iter_eq. simpl. rewrite Nat.add_0_r, !Z.eqb_refl. done.
  - cbn [length range_for]. unfold iter_eq at 1. cbn [it_block it_pos].
    rewrite Z.eqb_refl. destruct (Z.eqb_spec (Z.of_nat k) (Z.of_nat (k + S (length ys))));
      [lia|]. cbn [andb]. unfold iter_deref, iter_incr. cbn [it_block it_pos].
    unfold bind at 1. rewrite (load_known _ _ _ _ Hb), Hs.
    rewrite fmap_cons. cbn [app]. rewrite lookup_middle by done.
    unfold bind at 1.
    replace (Z.of_nat k + 1) with (Z.of_nat (S k)) by lia.
    replace (k + S (length ys))%nat with (S k + length ys)%nat by lia.
    rewrite (IH (S k) (pre ++ [Some y]) tl b w); [done | done | |].
    + rewrite Hs, fmap_cons. by rewrite <- app_assoc.
    + rewrite length_app. simpl. lia.
Qed.

Lemma iterate_holds this v xs w :
  vectors w !! this = Some v -> vec_holds v xs w -> iterate this w = Ok xs w.
Proof.
  intros Hv (Hsize & Hcap & Hbuf). unfold iterate, begin_, end_. run.
  rewrite Hv. simpl. rewrite Hv. simpl. rewrite Z.sub_0_r, Hsize, Nat2Z.id.
  destruct Hbuf as [[Hnull Hc0]|(Hnn & b & Hb & Hslots)].
  - assert (xs = []) as -> by (destruct xs; [done | simpl in *; lia]).
    simpl. unfold iter_eq. simpl. by rewrite !Z.eqb_refl.
  - eapply (range_for_holds _ xs 0 [] _ b); [done | by rewrite Hslots | done].
Qed.

Lemma index_holds this v xs w i x :
  vectors w !! this = Some v -> vec_holds v xs w -> xs !! i = Some x ->
  index this (Z.of_nat i) w = Ok x w.
Proof.
  intros Hv (Hsize & Hcap & Hbuf) Hi. unfold index. run. rewrite Hv. simpl.
  destruct Hbuf as [[Hnull Hc0]|(Hnn & b & Hb & Hslots)].
  - apply lookup_lt_Some in Hi. lia.
  - rewrite (load_known _ _ _ _ Hb), Hslots.
    rewrite lookup_app_l by (rewrite length_fmap; by apply lookup_lt_Some in Hi).
    by rewrite list_lookup_fmap, Hi.
Qed.

Lemma size_holds this v xs w :
  vectors w !! this = Some v -> vec_holds v xs w ->
  size this w = Ok (Z.of_nat (length xs)) w.
Proof. intros Hv (Hsize & _). unfold size. run. by rewrite Hv, <- Hsize. Qed.

(** ** The array: the capacities of a growing array *)





(** ** The array: clear *)

Ltac step H := unfold bind at 1; rewrite H.

(* Split a conjunction without unfolding definitions. *)
Ltac conjs := repeat match goal with |- _ /\ _ => split end.

Lemma clear_ok this v xs w :
  vectors w !! this = Some v -> vec_holds v xs w ->
  exists w1,
    clear this w = Ok tt w1 /\
    vectors w1 = <[this := mkVector (data_ v) 0 (capacity_ v) (alloc_ v)]> (vectors w) /\
    released w1 = released w /\ resources w1 = resources w /\
    (forall p, p ≠ data_ v -> heap w1 !! p = heap w !! p) /\
    (forall b, data_ v ≠ NULL -> heap w !! data_ v = Some b ->
       heap w1 !! data_ v
       = Some (mkBlock (blk_bytes b) (replicate (Z.to_nat (capacity_ v)) None))) /\
    (data_ v = NULL -> heap w1 = heap w) /\
    vec_holds (mkVector (data_ v) 0 (capacity_ v) (alloc_ v)) [] w1.
Proof.
  intros Hv (Hsize & Hcap & Hbuf). unfold clear.
  unfold bind at 1, get_vector. rewrite Hv, Hsize.
  destruct Hbuf as [[Hnull Hc0]|(Hnn & b & Hb & Hslots)].
  - assert (xs = []) as -> by (destruct xs; [done | simpl in *; lia]).
    simpl. eexists. split; [reflexivity|]. simpl.
    split_and!; try done. unfold vec_holds. simpl. split_and!; done || lia.
  - unfold bind at 1. erewrite (destroy_loop _ xs 0 w b); [|done|by rewrite Hslots].
    unfold put_vector. eexists. split; [reflexivity|]. simpl.
    assert (replicate (length xs) None
              ++ replicate (Z.to_nat (capacity_ v - size_ v)) None
            = replicate (Z.to_nat (capacity_ v)) (@None T)) as Hrep.
    { rewrite <- replicate_add. f_equal. lia. }
    rewrite Hrep. split_and!; try done.
    + intros p Hp. by rewrite lookup_insert_ne.
    + intros b' _ Hb'. rewrite Hb in Hb'. injection Hb' as <-.
      by rewrite lookup_insert_eq.
    + split_and!; simpl; try done; try lia. right. split; [done|].
      eexists. split; [apply lookup_insert_eq|]. simpl. by rewrite Z.sub_0_r.
Qed.

(** ** The array: transfer of ownership *)

Lemma do_deallocate_tracked mr p bytes al w m0 b :
  resources w !! mr = Some m0 -> is_Some (allocated_blocks_ m0 !! p) ->
  p ≠ NULL -> heap w !! p = Some b ->
  do_deallocate mr p bytes al w
  = Ok tt (mkWorld (delete p (heap w)) (released w + blk_bytes b)
             (<[mr := mkResource (delete p (allocated_blocks_ m0))]> (resources w))
             (vectors w) (node_grants w)).
Proof.
  intros Hmr [n Hn] Hp Hb. unfold do_deallocate, free. run.
  rewrite Hmr. simpl. rewrite Hn. apply Z.eqb_neq in Hp. rewrite Hp, Hb. done.
Qed.

Lemma vec_holds_frame v xs w w' :
  vec_holds v xs w ->
  (data_ v ≠ NULL -> heap w' !! data_ v = heap w !! data_ v) ->
  vec_holds v xs w'.
Proof.
  intros (Hsize & Hcap & Hbuf) Hsame. split; [done|]. split; [done|].
  destruct Hbuf as [?|(Hnn & b & Hb & Hslots)]; [by left|].
  right. split; [done|]. exists b. by rewrite Hsame.
Qed.

Lemma vec_holds_empty mr w : vec_holds (mkVector NULL 0 0 mr) [] w.
Proof. unfold vec_holds. simpl. split_and!; done || lia. Qed.

(** The destructor of an array without buffer has nothing to do. *)
Lemma vector_dtor_empty this mr w :
  vectors w !! this = Some (mkVector NULL 0 0 mr) ->
  vector_dtor this w = Ok tt w.
Proof.
  intros Hv. unfold vector_dtor, clear. run. rewrite Hv. simpl.
  rewrite insert_id by done. rewrite world_eta, Hv. done.
Qed.

(** C10: the byte count (and the alignment) passed to deallocate has no
    influence: on one state, two calls for the same handle that differ only
    in these arguments have the same outcome and the same final state.  In
    particular a handle of the mapping is released whatever byte count is
    passed, equal to the recorded size or not: the block goes back to the
    runtime and the entry is erased. *)
Theorem do_deallocate_ignores_size this p w :
  (forall s1 s2 a1 a2,
     do_deallocate this p s1 a1 w = do_deallocate this p s2 a2 w) /\
  (forall mr n b s al,
     resources w !! this = Some mr -> allocated_blocks_ mr !! p = Some n ->
     p ≠ NULL -> heap w !! p = Some b ->
     do_deallocate this p s al w
     = Ok tt (mkWorld (delete p (heap w)) (released w + blk_bytes b)
                (<[this := mkResource (delete p (allocated_blocks_ mr))]> (resources w))
                (vectors w) (node_grants w))).
Proof.
  split.
  - intros s1 s2 a1 a2. unfold do_deallocate. run.
    destruct (resources w !! this) as [mr|]; [|done]. simpl.
    by destruct (allocated_blocks_ mr !! p).
  - intros mr n b s al Hmr Hn Hp Hb. by eapply do_deallocate_tracked.
Qed.

(** C5: moving array [a] into a new array [b] by move-construction: [b]'s
    record is what [a]'s was (buffer pointer, size, capacity, allocator),
    so [b.size()] is [a]'s former size and iterating [b] yields [a]'s
    former elements in order; nothing is allocated, released or copied;
    [a] has no buffer, size 0 and capacity 0, which is a sound state to
    append to, and its destructor returns without touching anything.
    Move-assignment is written to do the same after destroying and
    releasing [b]'s former contents, but there is no such operator: it
    cannot be instantiated. *)
Theorem move_transfer a b va xs w :
  a ≠ b -> vectors w !! a = Some va -> vec_holds va xs w ->
  (exists w',
     move_ctor b a w = Ok tt w' /\
     vectors w' !! b = Some va /\
     vectors w' !! a = Some (mkVector NULL 0 0 (alloc_ va)) /\
     heap w' = heap w /\ released w' = released w /\ resources w' = resources w /\
     size b w' = Ok (Z.of_nat (length xs)) w' /\
     iterate b w' = Ok xs w' /\
     vec_holds (mkVector NULL 0 0 (alloc_ va)) [] w' /\
     vector_dtor a w' = Ok tt w') /\
  move_assign = None.
Proof.
  intros Hab Hva Hha. split; [|done].
  unfold move_ctor. run. rewrite Hva. simpl.
  eexists. split; [reflexivity|]. simpl.
  assert (<[a:=mkVector NULL 0 0 (alloc_ va)]> (<[b:=mkVector (data_ va)
            (size_ va) (capacity_ va) (alloc_ va)]> (vectors w)) !! b = Some va) as Hb.
  { rewrite lookup_insert_ne by done. rewrite lookup_insert_eq. by destruct va. }
  conjs; try done; try apply vec_holds_empty.
  + apply lookup_insert_eq.
  + by apply (size_holds _ va).
  + by apply (iterate_holds _ va).
  + apply (vector_dtor_empty _ (alloc_ va)). simpl. apply lookup_insert_eq.
Qed.

(** ** The array: assignment from itself *)

(** C6: the statements of [operator=] have the guard a self-assignment
    needs, [if (this != &other)]: run with [this == &other] they return
    with the whole state unchanged.  But no program can run them: the
    operator cannot be instantiated, so that [a = std::move(a)] is
    ill-formed. *)
Theorem move_assign_self :
  (forall this w, move_assign_body this this w = Ok tt w) /\
  move_assign = None.
Proof.
  split; [|done]. intros this w. unfold move_assign_body. by rewrite N.eqb_refl.
Qed.

(** ** The array: failure of growth *)

Lemma after_failure_holds r bytes v xs w w' :
  after_failure r bytes w w' -> vec_holds v xs w -> vec_holds v xs w'.
Proof.
  intros (_ & _ & _ & _ & Hkeep)%after_failure_frame (Hsize & Hcap & Hbuf).
  split; [done|]. split; [done|].
  destruct Hbuf as [?|(Hnn & b & Hb & Hslots)]; [by left|].
  right. split; [done|]. exists b. split; [by apply Hkeep | done].
Qed.

(** C4: an exception leaves an append only out of the growth step: the
    array is full and the allocation of the new buffer raises.  Then no
    field of the array has been changed: its record (buffer pointer, size,
    capacity, allocator) and its elements are as they were, as are every
    other array, every block that was live, the mapping of the resource and
    the bytes released.  When the runtime had no block for the buffer the
    whole state is as it was; when it had one and refused the node of the
    map, that block stays behind, live and unrecorded.  And an append that
    has to grow does end in an exception in both cases. *)
Theorem push_back_failure_atomic this r a w :
  (forall e w', push_back this r a w = Throw e w' ->
     exists v, vectors w !! this = Some v /\ capacity_ v <= size_ v /\
       vectors w' = vectors w /\ resources w' = resources w /\
       released w' = released w /\
       (forall q b, heap w !! q = Some b -> heap w' !! q = Some b) /\
       (forall xs, vec_holds v xs w ->
          vec_holds v xs w' /\
          size this w' = Ok (Z.of_nat (length xs)) w' /\
          iterate this w' = Ok xs w') /\
       after_failure r (new_cap (capacity_ v) * sizeof_T) w w') /\
  (forall v x mr, vectors w !! this = Some v -> capacity_ v <= size_ v ->
     read a w = Ok x w ->
     (r = NULL \/ is_Some (heap w !! r)) \/
     (resources w !! alloc_ v = Some mr /\ allocated_blocks_ mr !! r = None /\
      exists g, node_grants w = false :: g) ->
     exists e w', push_back this r a w = Throw e w').
Proof.
  split.
  - intros e w' (v & Hv & Hfull & Hf & _)%push_back_throw.
    destruct (after_failure_frame _ _ _ _ Hf) as (Hvs & Hres & Hrel & _ & Hkeep).
    exists v. split_and!; try done.
    intros xs Hh. pose proof (after_failure_holds _ _ _ _ _ _ Hf Hh) as Hh'.
    assert (vectors w' !! this = Some v) as Hv' by (by rewrite Hvs).
    split_and!; [done | by apply (size_holds _ v) | by apply (iterate_holds _ v)].
  - intros v x mr Hv Hfull Hrd Hfail. unfold push_back.
    unfold bind at 1. rewrite Hrd. unfold bind at 1, get_vector. rewrite Hv.
    apply Z.leb_le in Hfull. rewrite Hfull. unfold bind at 1, grow.
    unfold bind at 1, get_vector. rewrite Hv. unfold bind at 1, pa_allocate.
    destruct (SIZE_MAX / sizeof_T <? _); [by eexists _, _|].
    unfold bind at 1.
    destruct Hfail as [Hfail|(Hmr & Hk & g & Hg)].
    + destruct (resources w !! alloc_ v) as [mr0|] eqn:Hmr0.
      * rewrite (do_allocate_run _ _ _ _ _ _ Hmr0), decide_True by done.
        by eexists _, _.
      * rewrite (do_allocate_dangling _ _ _ _ _ Hmr0), decide_True by done.
        by eexists _, _.
    + rewrite (do_allocate_run _ _ _ _ _ _ Hmr). case_decide; [by eexists _, _|].
      rewrite Hk, Hg. by eexists _, _.
Qed.


(** ** The array: count and capacity *)

Lemma same_shape_refl w : same_shape w w.
Proof. by split_and!. Qed.

Lemma same_shape_trans w1 w2 w3 :
  same_shape w1 w2 -> same_shape w2 w3 -> same_shape w1 w3.
Proof.
  intros (? & ? & ? & H12) (? & ? & ? & H23). split_and!; congruence.
Qed.

Lemma same_shape_put p b l w :
  heap w !! p = Some b -> length l = length (blk_slots b) ->
  same_shape w (set_heap (<[p := mkBlock (blk_bytes b) l]> (heap w)) w).
Proof.
  intros Hb Hl. split_and!; try done. intros q. simpl.
  destruct (decide (q = p)) as [->|Hne].
  - rewrite lookup_insert_eq, Hb. simpl. unfold shape. simpl. by rewrite Hl.
  - by rewrite lookup_insert_ne.
Qed.

Lemma construct_shape p i x w w' :
  construct p i x w = Ok tt w' ->
  same_shape w w' /\
  exists b, heap w !! p = Some b /\ 0 <= i < Z.of_nat (length (blk_slots b)).
Proof.
  unfold construct. destruct (heap w !! p) as [b|] eqn:Hb; [|done].
  destruct (Z.leb_spec 0 i); [|done].
  destruct (Z.ltb_spec i (Z.of_nat (length (blk_slots b)))); [|done]. simpl.
  intros [_ <-]%Ok_inj. split.
  - apply same_shape_put; [done|]. apply length_insert.
  - exists b. split; [done | lia].
Qed.

Lemma destroy_shape p i w w' :
  destroy p i w = Ok tt w' -> same_shape w w'.
Proof.
  unfold destroy. destruct (heap w !! p) as [b|] eqn:Hb; [|done].
  destruct (0 <=? i); [|done].
  destruct (blk_slots b !! Z.to_nat i) as [[y|]|]; [|done..].
  intros [_ <-]%Ok_inj. apply same_shape_put; [done|]. apply length_insert.
Qed.

Lemma load_same p i w x w' : load p i w = Ok x w' -> w' = w.
Proof.
  unfold load. destruct (heap w !! p) as [b|]; [|done].
  destruct (0 <=? i); [|done].
  destruct (blk_slots b !! Z.to_nat i) as [[y|]|]; [|done..].
  by intros [_ <-]%Ok_inj.
Qed.

Lemma for_each_shape {A} (l : list A) (body : A -> M unit) :
  (forall a w w', body a w = Ok tt w' -> same_shape w w') ->
  forall w w', for_each l body w = Ok tt w' -> same_shape w w'.
Proof.
  intros Hbody. induction l as [|a l IH]; intros w w'; simpl.
  - intros [_ <-]%Ok_inj. apply same_shape_refl.
  - intros ([] & w1 & H1 & H2)%bind_ok_inv.
    eapply same_shape_trans; [by eapply Hbody | by apply IH].
Qed.

Lemma do_deallocate_sub mr p bytes al w w1 :
  do_deallocate mr p bytes al w = Ok tt w1 ->
  forall q b, heap w1 !! q = Some b -> heap w !! q = Some b.
Proof.
  unfold do_deallocate. intros (mr0 & w2 & Hget & H)%bind_ok_inv.
  unfold get_resource in Hget. destruct (resources w !! mr); [|done].
  apply Ok_inj in Hget as [<- <-].
  destruct (allocated_blocks_ _ !! p).
  - apply bind_ok_inv in H as ([] & w3 & Hfree & Hput).
    unfold put_resource in Hput. apply Ok_inj in Hput as [_ <-].
    unfold free in Hfree. destruct (p =? NULL).
    + by apply Ok_inj in Hfree as [_ <-].
    + destruct (heap w !! p); [|done]. apply Ok_inj in Hfree as [_ <-]. simpl.
      intros q c Hq. by apply lookup_delete_Some in Hq as [_ ?].
  - by apply Ok_inj in H as [_ <-].
Qed.

(** Growth without any assumption on the buffer: if it returns, the array
    points to the new block, whose number of slots is the new capacity. *)
Lemma grow_shape this r v w w1 :
  vectors w !! this = Some v -> grow this r w = Ok tt w1 ->
  let new_cap := (if capacity_ v =? 0 then 1 else wrap (capacity_ v * 2)) in
  vectors w1 = <[this := mkVector r (size_ v) new_cap (alloc_ v)]> (vectors w) /\
  0 <= new_cap /\
  forall b, heap w1 !! r = Some b -> length (blk_slots b) = Z.to_nat new_cap.
Proof.
  intros Hv. unfold grow. intros (v0 & w0 & Hget & H)%bind_ok_inv.
  apply get_vector_ok in Hget as [Hv0 ->]. rewrite Hv in Hv0. injection Hv0 as <-.
  set (new_cap := if capacity_ v =? 0 then 1 else wrap (capacity_ v * 2)) in *.
  assert (0 <= new_cap) as Hnc.
  { subst new_cap. destruct (capacity_ v =? 0); [lia | apply wrap_range]. }
  apply bind_ok_inv in H as (p & wa & Hpa & H).
  apply pa_allocate_ok in Hpa as (-> & Hr0 & Hr & _ & mr0 & Hmr & Hha & _ & _ & Hva).
  apply bind_ok_inv in H as ([] & wl & Hloop & H).
  apply bind_ok_inv in H as ([] & wd & Hde & Hput).
  apply Ok_inj in Hput as [_ <-]. simpl.
  apply for_each_shape in Hloop as (_ & _ & Hvl & Hshape); cycle 1.
  { intros i w2 w3 (x & w4 & Hload & Hrest)%bind_ok_inv.
    apply load_same in Hload as ->.
    apply bind_ok_inv in Hrest as ([] & w5 & Hc & Hd).
    apply construct_shape in Hc as [Hc _]. apply destroy_shape in Hd.
    by eapply same_shape_trans. }
  assert (vectors wd = vectors wl /\
          forall q b, heap wd !! q = Some b -> heap wl !! q = Some b) as [Hvd Hsub].
  { destruct (data_ v =? NULL).
    - by apply Ok_inj in Hde as [_ <-].
    - unfold pa_deallocate in Hde. split.
      + by apply do_deallocate_frame in Hde as (? & _).
      + by eapply do_deallocate_sub. }
  split_and!; [congruence | done |].
  intros b Hb. apply Hsub in Hb. specialize (Hshape r).
  rewrite Hb, Hha, lookup_insert_eq in Hshape. simpl in Hshape.
  injection Hshape as _ ->. apply length_replicate.
Qed.

Lemma wrap_succ_le z : 0 <= z -> 0 <= wrap (z + 1) <= z + 1.
Proof.
  intros Hz. unfold wrap. change (2 ^ 64) with 18446744073709551616.
  pose proof (Z.mod_pos_bound (z + 1) 18446744073709551616).
  pose proof (Z.mod_le (z + 1) 18446744073709551616). lia.
Qed.

Lemma push_back_vectors this r a v w w' :
  vectors w !! this = Some v -> 0 <= size_ v <= capacity_ v ->
  push_back this r a w = Ok tt w' ->
  exists v', vectors w' = <[this := v']> (vectors w) /\
    0 <= size_ v' <= capacity_ v' /\ capacity_ v <= capacity_ v'.
Proof.
  intros Hv Hinv Hpush.
  destruct (push_back_inv _ _ _ _ _ _ Hv Hpush)
    as (x0 & w1 & v1 & x & b1 & _ & Hgrow & Hv1 & _ & Hb & Hrange & ->).
  pose proof (wrap_succ_le (size_ v) ltac:(lia)) as Hwrap.
  destruct (Z.leb_spec (capacity_ v) (size_ v)) as [Hfull|Hroom].
  - destruct (grow_shape _ _ _ _ _ Hv Hgrow) as (Hvs & Hnc & Hlen).
    rewrite Hvs, lookup_insert_eq in Hv1. injection Hv1 as <-. simpl in *.
    apply Hlen in Hb. eexists. split; [|split].
    + by rewrite Hvs, insert_insert_eq.
    + simpl. lia.
    + simpl. lia.
  - subst w1. rewrite Hv in Hv1. injection Hv1 as <-.
    eexists. split; [|split].
    + done.
    + simpl. lia.
    + simpl. lia.
Qed.

Lemma clear_vectors this w w' :
  clear this w = Ok tt w' ->
  exists v, vectors w !! this = Some v /\
    vectors w' = <[this := mkVector (data_ v) 0 (capacity_ v) (alloc_ v)]> (vectors w).
Proof.
  unfold clear. intros (v & w0 & Hget & H)%bind_ok_inv.
  apply get_vector_ok in Hget as [Hv ->].
  apply bind_ok_inv in H as ([] & w1 & Hloop & Hput).
  apply Ok_inj in Hput as [_ <-].
  apply for_each_shape in Hloop as (_ & _ & Hvl & _);
    [|intros i ? ?; apply destroy_shape].
  exists v. split; [done|]. simpl. by rewrite Hvl.
Qed.

Lemma move_ctor_vectors this other w w' :
  move_ctor this other w = Ok tt w' ->
  exists o, vectors w !! other = Some o /\
    vectors w' = <[other := mkVector NULL 0 0 (alloc_ o)]>
                   (<[this := o]> (vectors w)).
Proof.
  unfold move_ctor. intros (o & w0 & Hget & H)%bind_ok_inv.
  apply get_vector_ok in Hget as [Ho ->]. run. apply Ok_inj in H as [_ <-].
  exists o. split; [done|]. simpl. by destruct o.
Qed.

Lemma count_le_capacity_insert id v w w' :
  count_le_capacity w -> vectors w' = <[id := v]> (vectors w) ->
  0 <= size_ v <= capacity_ v -> count_le_capacity w'.
Proof.
  intros Hinv Hvs Hv id' v'. rewrite Hvs.
  destruct (decide (id' = id)) as [->|Hne].
  - rewrite lookup_insert_eq. by intros [= <-].
  - rewrite lookup_insert_ne by done. apply Hinv.
Qed.

(** ** The array: appends go through when the runtime provides *)


Lemma grants_mono_ret {A} (a : A) : grants_mono (ret a).
Proof. by intros w b w' [_ <-]%Ok_inj. Qed.

Lemma grants_mono_throw {A} e : grants_mono (throw (A:=A) e).
Proof. by intros w a w'. Qed.

Lemma grants_mono_bind {A B} (m : M A) (k : A -> M B) :
  grants_mono m -> (forall a, grants_mono (k a)) -> grants_mono (bind m k).
Proof.
  intros Hm Hk w b w' (a & w1 & H1 & H2)%bind_ok_inv.
  etrans; [by eapply Hk | by eapply Hm].
Qed.

Lemma grants_mono_for_each {A} (l : list A) body :
  (forall a, grants_mono (body a)) -> grants_mono (for_each l body).
Proof.
  intros Hb. induction l as [|a l IH]; simpl.
  - apply grants_mono_ret.
  - apply grants_mono_bind; auto.
Qed.

Lemma grants_mono_same {A} (m : M A) :
  (forall w a w', m w = Ok a w' -> node_grants w' = node_grants w) ->
  grants_mono m.
Proof. intros H w a w' Hm. by rewrite (H _ _ _ Hm). Qed.

Lemma grants_mono_get_vector this : grants_mono (get_vector this).
Proof. apply grants_mono_same. by intros w v w' [_ ->]%get_vector_ok. Qed.

Lemma grants_mono_put_vector this v : grants_mono (put_vector this v).
Proof. apply grants_mono_same. by intros w a w' [_ <-]%Ok_inj. Qed.

Lemma grants_mono_get_resource this : grants_mono (get_resource this).
Proof.
  apply grants_mono_same. intros w a w'. unfold get_resource.
  destruct (resources w !! this); [|done]. by intros [_ <-]%Ok_inj.
Qed.

Lemma grants_mono_put_resource this mr : grants_mono (put_resource this mr).
Proof. apply grants_mono_same. by intros w a w' [_ <-]%Ok_inj. Qed.

Lemma grants_mono_free p : grants_mono (free p).
Proof.
  apply grants_mono_same. intros w a w'. unfold free.
  destruct (p =? NULL); [by intros [_ <-]%Ok_inj|].
  destruct (heap w !! p); [|done]. by intros [_ <-]%Ok_inj.
Qed.

Lemma grants_mono_load p i : grants_mono (load p i).
Proof. apply grants_mono_same. by intros w a w' ->%load_same. Qed.

Lemma grants_mono_read a : grants_mono (read a).
Proof. apply grants_mono_same. by intros w x w' ->%read_ok. Qed.

Lemma grants_mono_construct p i x : grants_mono (construct p i x).
Proof.
  apply grants_mono_same. intros w a w'. unfold construct.
  destruct (heap w !! p); [|done]. destruct (_ && _); [|done].
  by intros [_ <-]%Ok_inj.
Qed.

Lemma grants_mono_destroy p i : grants_mono (destroy p i).
Proof.
  apply grants_mono_same. intros w a w'. unfold destroy.
  destruct (heap w !! p) as [b|]; [|done]. destruct (0 <=? i); [|done].
  destruct (blk_slots b !! Z.to_nat i) as [[?|]|]; [|done..].
  by intros [_ <-]%Ok_inj.
Qed.

Lemma grants_mono_as_array p n : grants_mono (as_array p n).
Proof.
  apply grants_mono_same. intros w a w'. unfold as_array.
  destruct (heap w !! p); [|done]. by intros [_ <-]%Ok_inj.
Qed.

Lemma grants_mono_do_allocate this r bytes al :
  grants_mono (do_allocate this r bytes al).
Proof.
  intros w p w' (_ & _ & _ & mr & g & _ & -> & [->| ->])%do_allocate_ok; simpl.
  - done.
  - by apply suffix_cons_r.
Qed.

Create HintDb grants.
#[local] Hint Resolve grants_mono_ret grants_mono_throw grants_mono_get_vector
  grants_mono_put_vector grants_mono_get_resource grants_mono_put_resource
  grants_mono_free grants_mono_load grants_mono_read grants_mono_construct
  grants_mono_destroy grants_mono_as_array grants_mono_do_allocate : grants.

Ltac grants_mono := repeat first
  [ solve [auto with grants]
  | apply grants_mono_bind; [|intros ?]
  | apply grants_mono_for_each; intros ?
  | match goal with |- grants_mono (if ?c then _ else _) => destruct c end
  | match goal with |- grants_mono (match ?c with Some _ => _ | None => _ end) =>
      destruct c end ].












Lemma vector_dtor_vectors this w w' :
  vector_dtor this w = Ok tt w' ->
  exists v, vectors w !! this = Some v /\
    vectors w' = <[this := mkVector (data_ v) 0 (capacity_ v) (alloc_ v)]> (vectors w).
Proof.
  unfold vector_dtor. intros ([] & w1 & Hclear & H)%bind_ok_inv.
  apply clear_vectors in Hclear as (v & Hv & Hvs1).
  apply bind_ok_inv in H as (v1 & w2 & Hget & Hde).
  apply get_vector_ok in Hget as [Hv1 ->].
  exists v. split; [done|]. rewrite <- Hvs1.
  destruct (data_ v1 =? NULL).
  - by apply Ok_inj in Hde as [_ <-].
  - unfold pa_deallocate in Hde. by apply do_deallocate_frame in Hde as (? & _).
Qed.

(** C9: construction, append, [clear], move-construction and destruction
    keep [0 <= size_ <= capacity_] for every array, also when an append ends
    in an exception.  No operation lowers the capacity of an array: an
    append raises it or keeps it, for every array; [clear], the
    constructor and an append that ends in an exception keep all
    capacities; the destructor keeps the records of the other arrays.  A
    move-construction gives the new array the capacity of the source, sets
    the source's to 0 (the move-out) and keeps the records of all other
    arrays.  There is no move-assignment to run: the operator cannot be
    instantiated. *)
Theorem count_le_capacity_kept :
  (forall this mr w, count_le_capacity w ->
     exists w', vector_ctor this mr w = Ok tt w' /\ count_le_capacity w' /\
       capacity_ <$> vectors w' !! this = Some 0 /\
       forall id, id ≠ this -> vectors w' !! id = vectors w !! id) /\
  (forall this r a w w', count_le_capacity w ->
     push_back this r a w = Ok tt w' ->
     count_le_capacity w' /\
     forall id v, vectors w !! id = Some v ->
       exists v', vectors w' !! id = Some v' /\ capacity_ v <= capacity_ v') /\
  (forall this r a w e w', count_le_capacity w ->
     push_back this r a w = Throw e w' ->
     count_le_capacity w' /\ vectors w' = vectors w) /\
  (forall this w w', count_le_capacity w ->
     clear this w = Ok tt w' ->
     count_le_capacity w' /\
     forall id v, vectors w !! id = Some v ->
       exists v', vectors w' !! id = Some v' /\ capacity_ v' = capacity_ v) /\
  (forall this other w w', count_le_capacity w -> this ≠ other ->
     move_ctor this other w = Ok tt w' ->
     count_le_capacity w' /\
     exists o, vectors w !! other = Some o /\
       capacity_ <$> vectors w' !! this = Some (capacity_ o) /\
       capacity_ <$> vectors w' !! other = Some 0 /\
       forall id, id ≠ this -> id ≠ other -> vectors w' !! id = vectors w !! id) /\
  (forall this w w', count_le_capacity w ->
     vector_dtor this w = Ok tt w' ->
     count_le_capacity w' /\
     forall id, id ≠ this -> vectors w' !! id = vectors w !! id) /\
  move_assign = None.
Proof.
  split_and!.
  - intros this mr w Hinv. eexists. split; [reflexivity|]. split_and!.
    + eapply count_le_capacity_insert; [done | reflexivity | simpl; lia].
    + simpl. by rewrite lookup_insert_eq.
    + intros id Hid. simpl. by rewrite lookup_insert_ne.
  - intros this r a w w' Hinv Hpush.
    assert (exists v, vectors w !! this = Some v) as [v Hv].
    { unfold push_back in Hpush. apply bind_ok_inv in Hpush as (x0 & w0 & Hrd & H).
      apply read_ok in Hrd as ->. apply bind_ok_inv in H as (v & ? & Hget & _).
      apply get_vector_ok in Hget as [? _]. by exists v. }
    destruct (push_back_vectors _ _ _ _ _ _ Hv (Hinv _ _ Hv) Hpush)
      as (v' & Hvs & Hv' & Hmono).
    split; [by eapply count_le_capacity_insert|].
    intros id u Hu. rewrite Hvs. destruct (decide (id = this)) as [->|Hne].
    + rewrite lookup_insert_eq. exists v'. split; [done|]. congruence.
    + rewrite lookup_insert_ne by done. exists u. split; [done | lia].
  - intros this r a w e w' Hinv (v & _ & _ & Hf & _)%push_back_throw.
    apply after_failure_frame in Hf as (Hvs & _). split; [|done].
    intros id u. rewrite Hvs. apply Hinv.
  - intros this w w' Hinv Hclear.
    apply clear_vectors in Hclear as (v & Hv & Hvs).
    pose proof (Hinv _ _ Hv) as Hle.
    split; [eapply count_le_capacity_insert; [done..|simpl; lia]|].
    intros id u Hu. rewrite Hvs. destruct (decide (id = this)) as [->|Hne].
    + rewrite lookup_insert_eq. eexists. split; [done|]. simpl. congruence.
    + rewrite lookup_insert_ne by done. by exists u.
  - intros this other w w' Hinv Hne Hmove.
    apply move_ctor_vectors in Hmove as (o & Ho & Hvs).
    split.
    + eapply (count_le_capacity_insert other _
                (set_vectors (<[this := o]> (vectors w)) w) w');
        [|exact Hvs|simpl; lia].
      eapply (count_le_capacity_insert this _ w); [done | done | by apply (Hinv other)].
    + exists o. rewrite Hvs. split_and!; try done.
      * rewrite lookup_insert_ne by done. by rewrite lookup_insert_eq.
      * by rewrite lookup_insert_eq.
      * intros id H1 H2. by rewrite !lookup_insert_ne.
  - intros this w w' Hinv (v & Hv & Hvs)%vector_dtor_vectors.
    pose proof (Hinv _ _ Hv) as Hle. split.
    + eapply count_le_capacity_insert; [done..|simpl; lia].
    + intros id Hid. by rewrite Hvs, lookup_insert_ne.
  - done.
Qed.

(** ** The resource: allocate, deallocate and their composition *)

(** X1: A handle that allocate returns is not null, was not a live block and was
    not in the mapping; it is recorded with the requested size; and giving
    it back, with whatever byte count, undoes the allocation: heap, mapping
    and every other object are as before, and the requested bytes have gone
    back to the runtime. *)
Theorem allocate_deallocate_round_trip this m w r bytes al p w1 bytes' al' :
  resource_sound this m w ->
  do_allocate this r bytes al w = Ok p w1 ->
  p ≠ NULL /\ heap w !! p = None /\ m !! p = None /\
  resources w1 !! this = Some (mkResource (<[p := bytes]> m)) /\
  exists w2,
    do_deallocate this p bytes' al' w1 = Ok tt w2 /\
    heap w2 = heap w /\ resources w2 = resources w /\
    vectors w2 = vectors w /\ released w2 = released w + bytes.
Proof.
  intros [Hres Hsub] (-> & Hnull & Hr & mr & g & Hmr & -> & _)%do_allocate_ok.
  rewrite Hres in Hmr. injection Hmr as <-. unfold allocated. simpl.
  assert (m !! r = None) as Hm.
  { destruct (m !! r) eqn:Hm; [|done]. destruct (Hsub r) as [? ?]; [by eexists|congruence]. }
  split_and!; try done.
  { by rewrite lookup_insert_eq. }
  erewrite do_deallocate_tracked; simpl;
    [| apply lookup_insert_eq | simpl; rewrite lookup_insert_eq; by eexists
     | done | apply lookup_insert_eq ].
  eexists. split; [reflexivity|]. simpl.
  rewrite !delete_insert_id by done. rewrite insert_insert_eq.
  split_and!; try done. by apply insert_id.
Qed.

(** X2: Deallocating a handle a second time changes nothing: the first call has
    erased the entry, so the second one finds none and frees nothing. *)
Theorem deallocate_twice this p s1 a1 s2 a2 w w1 :
  do_deallocate this p s1 a1 w = Ok tt w1 ->
  do_deallocate this p s2 a2 w1 = Ok tt w1.
Proof.
  unfold do_deallocate. intros (mr & w0 & Hget & H)%bind_ok_inv.
  unfold get_resource in Hget. destruct (resources w !! this) as [mr0|] eqn:Hmr; [|done].
  apply Ok_inj in Hget as [<- <-].
  destruct (allocated_blocks_ mr0 !! p) eqn:Hp.
  - apply bind_ok_inv in H as ([] & w2 & Hfree & Hput).
    apply Ok_inj in Hput as [_ <-]. run. rewrite lookup_insert_eq. simpl.
    by rewrite lookup_delete_eq.
  - apply Ok_inj in H as [_ <-]. run. by rewrite Hmr, Hp.
Qed.

(** X3: allocate raises nothing but [std::bad_alloc], in two cases.  The
    runtime has provided no block: the state is as it was.  Or it has
    provided one and the map was refused the node for its entry: the map is
    as it was and the block is live and unrecorded, so that deallocate
    ignores its handle: the block is lost. *)
Theorem do_allocate_failure this r bytes al w e w' :
  do_allocate this r bytes al w = Throw e w' ->
  e = bad_alloc /\
  ((w' = w /\ (r = NULL \/ is_Some (heap w !! r))) \/
   (r ≠ NULL /\ heap w !! r = None /\
    heap w' = <[r := mkBlock bytes []]> (heap w) /\
    resources w' = resources w /\ vectors w' = vectors w /\
    released w' = released w /\
    node_grants w = false :: node_grants w' /\
    forall bytes' al', do_deallocate this r bytes' al' w' = Ok tt w')).
Proof.
  intros (-> & [?|(Hnull & Hr & mr & g & Hmr & Hk & Hg & ->)])%do_allocate_raises.
  { split; [done|]. by left. }
  split; [done|]. right. split_and!; try done.
  intros bytes' al'. unfold do_deallocate, bind, get_resource, leaked. simpl.
  by rewrite Hmr, Hk.
Qed.

(** ** The array: what growth does to heap and resource *)

Lemma grow_effects this r v xs w w1 :
  vectors w !! this = Some v -> vec_holds v xs w -> capacity_ v <= size_ v ->
  grow this r w = Ok tt w1 ->
  exists mr0, resources w !! alloc_ v = Some mr0 /\
    let new_cap := (if capacity_ v =? 0 then 1 else wrap (capacity_ v * 2)) in
    let m1 := <[r := new_cap * sizeof_T]> (allocated_blocks_ mr0) in
    (forall q, q ≠ r -> q ≠ data_ v -> heap w1 !! q = heap w !! q) /\
    (data_ v = NULL ->
       (forall q, q ≠ r -> heap w1 !! q = heap w !! q) /\
       resources w1 = <[alloc_ v := mkResource m1]> (resources w) /\
       released w1 = released w) /\
    (data_ v ≠ NULL -> is_Some (allocated_blocks_ mr0 !! data_ v) ->
     forall b, heap w !! data_ v = Some b ->
       heap w1 !! data_ v = None /\
       resources w1 = <[alloc_ v := mkResource (delete (data_ v) m1)]> (resources w) /\
       released w1 = released w + blk_bytes b).
Proof.
  intros Hv (Hsize & Hcap & Hbuf) Hfull. unfold grow.
  intros (v0 & w0 & Hget & H)%bind_ok_inv.
  apply get_vector_ok in Hget as [Hv0 ->]. rewrite Hv in Hv0. injection Hv0 as <-.
  set (new_cap := if capacity_ v =? 0 then 1 else wrap (capacity_ v * 2)) in *.
  apply bind_ok_inv in H as (p & wa & Hpa & H).
  apply pa_allocate_ok in Hpa as (-> & Hr0 & Hr & _ & mr0 & Hmr & Hha & Hrela & Hresa & Hva).
  apply bind_ok_inv in H as ([] & wl & Hloop & H).
  apply bind_ok_inv in H as ([] & wd & Hde & Hput).
  apply Ok_inj in Hput as [_ <-]. simpl.
  exists mr0. split; [done|]. rewrite Hsize in Hloop.
  destruct Hbuf as [[Hnull Hc0]|(Hnn & b & Hb & Hslots)].
  - assert (xs = []) as -> by (destruct xs; [done | simpl in *; lia]).
    simpl in Hloop. apply Ok_inj in Hloop as [_ <-].
    rewrite Hnull in Hde. simpl in Hde. apply Ok_inj in Hde as [_ <-].
    split_and!.
    + intros q Hq _. by rewrite Hha, lookup_insert_ne.
    + intros _. split_and!; try done. intros q Hq. by rewrite Hha, lookup_insert_ne.
    + done.
  - assert (data_ v ≠ r) as Hne by congruence.
    replace (Z.to_nat (capacity_ v - size_ v)) with 0%nat in Hslots by lia.
    eapply (move_loop (data_ v) r xs 0 wa wl b _ [] (replicate (Z.to_nat new_cap) None) [])
      in Hloop; [|done|..]; cycle 1.
    { rewrite Hha. by rewrite lookup_insert_ne. }
    { by rewrite Hslots. }
    { rewrite Hha. apply lookup_insert_eq. }
    { done. }
    { done. }
    destruct Hloop as (_ & (Hrell & Hresl & _ & Hframe) & Hold & _).
    apply Z.eqb_neq in Hnn as Hnn'. rewrite Hnn' in Hde. unfold pa_deallocate in Hde.
    split_and!.
    + intros q Hq Hqd. apply do_deallocate_frame in Hde as (_ & Hhd & _).
      rewrite Hhd by done. rewrite Hframe.
      * by rewrite Hha, lookup_insert_ne.
      * rewrite !elem_of_cons. intros [?|[?|?%elem_of_nil]]; done.
    + done.
    + intros _ Htracked b' Hb'. rewrite Hb in Hb'. injection Hb' as <-.
      erewrite do_deallocate_tracked in Hde; cycle 1.
      { rewrite Hresl, Hresa. apply lookup_insert_eq. }
      { simpl. by rewrite lookup_insert_ne. }
      { done. }
      { exact Hold. }
      apply Ok_inj in Hde as [_ <-]. simpl.
      rewrite lookup_delete_eq, Hresl, Hresa, insert_insert_eq, Hrell, Hrela.
      done.
Qed.

(** An append leaves every block other than the array's own buffer as it
    is, and every other array's record. *)
Lemma push_back_heap_frame this r a v xs w w' :
  vectors w !! this = Some v -> vec_holds v xs w ->
  push_back this r a w = Ok tt w' ->
  forall q b, q ≠ data_ v -> heap w !! q = Some b -> heap w' !! q = Some b.
Proof.
  intros Hv Hh Hpush.
  destruct (push_back_inv _ _ _ _ _ _ Hv Hpush)
    as (x0 & w1 & v1 & x & b1 & _ & Hgrow & Hv1 & _ & Hb1 & _ & ->).
  simpl. intros q b Hq Hb.
  destruct (Z.leb_spec (capacity_ v) (size_ v)) as [Hfull|Hroom].
  - destruct (grow_ok _ _ _ _ _ _ Hv Hh Hfull Hgrow) as (_ & _ & Hr & Hvs & _).
    destruct (grow_effects _ _ _ _ _ _ Hv Hh Hfull Hgrow) as (mr0 & _ & Hframe & _).
    rewrite Hvs, lookup_insert_eq in Hv1. injection Hv1 as <-. simpl in *.
    assert (q ≠ r) as Hqr by congruence.
    rewrite lookup_insert_ne by done. by rewrite Hframe.
  - subst w1. rewrite Hv in Hv1. injection Hv1 as <-.
    by rewrite lookup_insert_ne.
Qed.

(** X4: Two arrays with different buffers: an append to one that returns leaves
    the other's record and elements as they are. *)
Theorem push_back_leaves_other_arrays a b va xs vb ys r arg w w' :
  a ≠ b ->
  vectors w !! a = Some va -> vec_holds va xs w ->
  vectors w !! b = Some vb -> vec_holds vb ys w ->
  data_ vb = NULL \/ data_ va ≠ data_ vb ->
  push_back a r arg w = Ok tt w' ->
  vectors w' !! b = Some vb /\ vec_holds vb ys w' /\
  size b w' = Ok (Z.of_nat (length ys)) w' /\ iterate b w' = Ok ys w'.
Proof.
  intros Hab Hva Hha Hvb Hhb Hne Hpush.
  destruct (push_back_ok _ _ _ _ _ _ _ Hva Hha Hpush) as (va' & x & _ & Hvs & _).
  assert (vectors w' !! b = Some vb) as Hvb'.
  { rewrite Hvs. by rewrite lookup_insert_ne. }
  assert (vec_holds vb ys w') as Hhb'.
  { destruct Hhb as (Hs & Hc & Hbuf). split; [done|]. split; [done|].
    destruct Hbuf as [?|(Hnn & blk & Hblk & Hslots)]; [by left|].
    right. split; [done|]. exists blk. split; [|done].
    apply (push_back_heap_frame a r arg va xs w w' Hva Hha Hpush); [|done].
    destruct Hne as [?|?]; congruence. }
  split_and!; try done.
  - by apply (size_holds _ vb).
  - by apply (iterate_holds _ vb).
Qed.

(** ** The array as the only client of its resource *)

Lemma push_back_sole_owner this h0 m0 v xs r a w w' :
  (forall p, is_Some (m0 !! p) -> is_Some (h0 !! p)) ->
  sole_owner this h0 m0 v xs w ->
  push_back this r a w = Ok tt w' ->
  exists v' x,
    read a w = Ok x w /\
    sole_owner this h0 m0 v' (xs ++ [x]) w' /\
    alloc_ v' = alloc_ v /\
    capacity_ v' = next_capacity (size_ v) (capacity_ v) /\
    released w'
    = released w + sizeof_T * (Z.max (capacity_ v') 1 - Z.max (capacity_ v) 1).
Proof.
  intros Hbase (Hv & Hh & Hown) Hpush.
  destruct (push_back_ok _ _ _ _ _ _ _ Hv Hh Hpush)
    as (v' & x & Hread & Hvs & Hh' & Hal & Hc & Hmono).
  assert (vectors w' !! this = Some v') as Hv' by (by rewrite Hvs, lookup_insert_eq).
  destruct (push_back_inv _ _ _ _ _ _ Hv Hpush)
    as (x0 & w1 & v1 & x1 & b1 & _ & Hgrow & Hv1 & _ & Hb1 & _ & Hw').
  assert (data_ v' = data_ v1 /\ capacity_ v' = capacity_ v1) as [Hdata Hcap'].
  { rewrite Hw' in Hv'. simpl in Hv'. rewrite lookup_insert_eq in Hv'.
    by injection Hv' as <-. }
  assert (heap w' = <[data_ v' := mkBlock (blk_bytes b1)
            (<[Z.to_nat (size_ v1) := Some x1]> (blk_slots b1))]> (heap w1) /\
          resources w' = resources w1 /\ released w' = released w1)
    as (Hheap' & Hres' & Hrel').
  { rewrite Hw', Hdata. done. }
  clear Hw'. unfold next_capacity in Hc.
  exists v', x. split; [done|]. split; [|split; [done|split; [done|]]].
  - split; [done|]. split; [done|]. right.
    destruct (Z.leb_spec (capacity_ v) (size_ v)) as [Hfull|Hroom].
    + destruct (grow_ok _ _ _ _ _ _ Hv Hh Hfull Hgrow) as (_ & Hr0 & Hr & Hvs1 & Hblk).
      destruct (grow_effects _ _ _ _ _ _ Hv Hh Hfull Hgrow)
        as (mr0 & Hmr & Hfr & Hnull & Htracked).
      rewrite Hvs1, lookup_insert_eq in Hv1. injection Hv1 as <-. simpl in *.
      rewrite Hblk in Hb1. injection Hb1 as <-. simpl in *.
      rewrite Hres', Hheap', Hal, Hcap', !Hdata.
      destruct Hown as [(Hd & Hres & Hheap)|(Hd & Hh0 & Hm0 & Hres & b & Hbytes & Hheap)].
      * destruct (Hnull Hd) as (Hfr' & Hres1 & _).
        rewrite Hmr in Hres. injection Hres as ->. simpl in *.
        assert (h0 !! r = None) as Hrh by (by rewrite <- Hheap).
        split_and!; try done.
        -- destruct (m0 !! r) eqn:Hm; [|done].
           destruct (Hbase r) as [? ?]; [by eexists | congruence].
        -- by rewrite Hres1, lookup_insert_eq.
        -- eexists (mkBlock _ _). split; [|apply map_eq; intros q].
           ++ simpl. reflexivity.
           ++ destruct (decide (q = r)) as [->|Hq].
              ** rewrite !lookup_insert_eq. reflexivity.
              ** rewrite !lookup_insert_ne by done. rewrite Hfr' by done.
                 by rewrite Hheap.
      * rewrite Hmr in Hres. injection Hres as ->. simpl in *.
        assert (heap w !! data_ v = Some b) as Hb by (by rewrite Hheap, lookup_insert_eq).
        destruct (Htracked Hd) with (b := b) as (Hgone & Hres1 & _);
          [by rewrite lookup_insert_eq | done |].
        assert (r ≠ data_ v) as Hrd by congruence.
        assert (h0 !! r = None) as Hrh.
        { rewrite Hheap, lookup_insert_ne in Hr by done. done. }
        split_and!; try done.
        -- destruct (m0 !! r) eqn:Hm; [|done].
           destruct (Hbase r) as [? ?]; [by eexists | congruence].
        -- rewrite Hres1, lookup_insert_eq. f_equal. f_equal.
           apply map_eq. intros q. destruct (decide (q = data_ v)) as [->|Hq].
           ++ rewrite lookup_delete_eq, lookup_insert_ne by done. done.
           ++ rewrite lookup_delete_ne by done.
              destruct (decide (q = r)) as [->|Hqr].
              ** rewrite !lookup_insert_eq. reflexivity.
              ** rewrite !lookup_insert_ne by done. done.
        -- eexists (mkBlock _ _). split; [|apply map_eq; intros q].
           ++ simpl. reflexivity.
           ++ destruct (decide (q = r)) as [->|Hq].
              ** rewrite !lookup_insert_eq. reflexivity.
              ** rewrite !lookup_insert_ne by done.
                 destruct (decide (q = data_ v)) as [->|Hqd]; [congruence|].
                 rewrite Hfr by done. rewrite Hheap. by rewrite lookup_insert_ne.
    + subst w1. rewrite Hv in Hv1. injection Hv1 as <-.
      rewrite Hres', Hheap', Hal, Hcap', !Hdata.
      destruct Hown as [(Hd & Hres & Hheap)|(Hd & Hh0 & Hm0 & Hres & b & Hbytes & Hheap)].
      * destruct Hh as (? & _ & [[_ ?]|(? & _)]); [lia | done].
      * split_and!; try done. rewrite Hheap, lookup_insert_eq in Hb1.
        injection Hb1 as <-. eexists (mkBlock _ _).
        split; [|rewrite Hheap; apply insert_insert_eq]. done.
  - rewrite Hrel', Hc. destruct Hh as (Hsize & Hcap & Hbuf).
    destruct (Z.leb_spec (capacity_ v) (size_ v)) as [Hfull|Hroom].
    + destruct (grow_effects _ _ _ _ _ _ Hv (conj Hsize (conj Hcap Hbuf)) Hfull Hgrow)
        as (mr0 & Hmr & _ & Hnull & Htracked).
      destruct Hown as [(Hd & Hres & Hheap)|(Hd & Hh0 & Hm0 & Hres & b & Hbytes & Hheap)].
      * destruct (Hnull Hd) as (_ & _ & ->).
        destruct Hbuf as [[_ Hc0]|[? _]]; [|done]. rewrite Hc0. simpl. lia.
      * rewrite Hmr in Hres. injection Hres as ->. simpl in *.
        assert (heap w !! data_ v = Some b) as Hb by (by rewrite Hheap, lookup_insert_eq).
        destruct (Htracked Hd) with (b := b) as (_ & _ & ->);
          [by rewrite lookup_insert_eq | done |].
        rewrite Hbytes. destruct (Z.eqb_spec (capacity_ v) 0) as [->|?].
        -- simpl. lia.
        -- rewrite !Z.max_l by lia. f_equal. ring.
    + subst w1. lia.
Qed.

Lemma push_back_all_sole_owner this h0 m0 ras : forall v xs w out w',
  (forall p, is_Some (m0 !! p) -> is_Some (h0 !! p)) ->
  sole_owner this h0 m0 v xs w ->
  push_back_all this ras w = Ok out w' ->
  exists v',
    sole_owner this h0 m0 v' (xs ++ out.*1) w' /\
    alloc_ v' = alloc_ v /\
    released w'
    = released w + sizeof_T * (Z.max (capacity_ v') 1 - Z.max (capacity_ v) 1).
Proof.
  induction ras as [|[r a] ras IH]; intros v xs w out w' Hbase Hown.
  - simpl. intros [<- <-]%Ok_inj. exists v. rewrite app_nil_r.
    split_and!; try done. lia.
  - cbn [push_back_all]. intros (x0 & w0 & Hrd0 & H)%bind_ok_inv.
    pose proof (read_ok _ _ _ _ Hrd0) as ->.
    apply bind_ok_inv in H as ([] & w1 & Hpush & H).
    apply bind_ok_inv in H as (v1 & w2 & Hget & H).
    apply get_vector_ok in Hget as [Hv1 ->].
    apply bind_ok_inv in H as (out' & w3 & Hrest & Hret).
    apply Ok_inj in Hret as [<- <-].
    destruct (push_back_sole_owner _ _ _ _ _ _ _ _ _ Hbase Hown Hpush)
      as (v' & x & Hrd & Hown' & Hal & _ & Hrel).
    rewrite Hrd0 in Hrd. apply Ok_inj in Hrd as [<- _].
    destruct (IH _ _ _ _ _ Hbase Hown' Hrest) as (v'' & Hown'' & Hal' & Hrel').
    exists v''. split_and!.
    + rewrite fmap_cons, cons_middle, app_assoc. done.
    + congruence.
    + rewrite Hrel', Hrel. lia.
Qed.

(** X5: Appends to a new array on a resource whose handles are live blocks: if
    they return, heap and mapping hold exactly one block more than before
    the first append, the array's current buffer, recorded with
    [capacity_ * sizeof(T)] bytes; every buffer the array had before has
    gone back to the runtime, [capacity_ - 1] elements in all.  The array
    holds the values its arguments had when the calls were made. *)
Theorem appends_keep_one_block this mr m0 ras w out w' :
  resource_sound mr m0 w ->
  vectors w !! this = Some (mkVector NULL 0 0 mr) ->
  push_back_all this ras w = Ok out w' ->
  exists v',
    sole_owner this (heap w) m0 v' out.*1 w' /\
    alloc_ v' = mr /\
    released w' = released w + sizeof_T * (Z.max (capacity_ v') 1 - 1) /\
    length out = length ras /\
    (forall k r x, ras !! k = Some (r, Val x) -> out.*1 !! k = Some x).
Proof.
  intros [Hres Hsub] Hv Hrun.
  destruct (push_back_all_sole_owner this (heap w) m0 ras
              (mkVector NULL 0 0 mr) [] w out w') as (v' & Hown & Hal & Hrel);
    try done.
  - split; [done|]. split; [apply vec_holds_empty|]. left. by split_and!.
  - destruct (push_back_all_ok _ _ _ _ _ _ _ Hv (vec_holds_empty _ _) Hrun)
      as (_ & _ & _ & _ & _ & _ & _ & Hlen & Hvals).
    exists v'. split_and!; done.
Qed.

Lemma vector_dtor_sole_owner this h0 m0 v xs w :
  sole_owner this h0 m0 v xs w ->
  exists w1 w',
    clear this w = Ok tt w1 /\
    (forall b, data_ v ≠ NULL -> heap w !! data_ v = Some b ->
       heap w1 !! data_ v
       = Some (mkBlock (blk_bytes b) (replicate (Z.to_nat (capacity_ v)) None))) /\
    (forall p, p ≠ data_ v -> heap w1 !! p = heap w !! p) /\
    vector_dtor this w = Ok tt w' /\
    vectors w'
    = <[this := mkVector (data_ v) 0 (capacity_ v) (alloc_ v)]> (vectors w) /\
    heap w' = (if data_ v =? NULL then heap w1 else delete (data_ v) (heap w1)) /\
    heap w' = h0 /\
    resources w' !! alloc_ v = Some (mkResource m0) /\
    (forall id, id ≠ alloc_ v -> resources w' !! id = resources w !! id) /\
    released w' = released w + sizeof_T * capacity_ v.
Proof.
  intros (Hv & Hh & Hown).
  destruct (clear_ok _ _ _ _ Hv Hh)
    as (w1 & Hclear & Hvs & Hrel & Hres & Hframe & Hbuf & Hnull & _).
  exists w1. unfold vector_dtor. unfold bind at 1. rewrite Hclear.
  unfold bind at 1, get_vector.
  rewrite Hvs, lookup_insert_eq. simpl.
  destruct Hown as [(Hd & Hr & Hheap)|(Hd & Hh0 & Hm0 & Hr & b & Hbytes & Hheap)].
  - apply Z.eqb_eq in Hd as Hd'. rewrite Hd'. simpl. eexists. split; [done|].
    destruct Hh as (_ & _ & [[_ Hc0]|[? _]]); [|done].
    split; [done|]. split; [exact Hframe|]. split; [reflexivity|].
    split_and!; try done.
    + rewrite Hnull by done. done.
    + by rewrite Hres.
    + intros id _. by rewrite Hres.
    + rewrite Hrel, Hc0. lia.
  - apply Z.eqb_neq in Hd as Hd'. rewrite Hd'. unfold pa_deallocate.
    assert (heap w !! data_ v = Some b) as Hb by (by rewrite Hheap, lookup_insert_eq).
    erewrite do_deallocate_tracked; cycle 1.
    { by rewrite Hres. }
    { simpl. rewrite lookup_insert_eq. by eexists. }
    { done. }
    { by apply Hbuf. }
    eexists. split; [done|]. split; [exact Hbuf|]. split; [exact Hframe|].
    split; [reflexivity|]. simpl. split_and!; try done.
    + apply map_eq. intros q. destruct (decide (q = data_ v)) as [->|Hq].
      * by rewrite lookup_delete_eq.
      * rewrite lookup_delete_ne by done. rewrite Hframe by done.
        rewrite Hheap. by rewrite lookup_insert_ne.
    + rewrite lookup_insert_eq. by rewrite delete_insert_id.
    + intros id Hid. rewrite lookup_insert_ne by done. by rewrite Hres.
    + rewrite Hrel, Hbytes. lia.
Qed.


(** X7: An array constructed on a resource, appended to and destroyed, the
    pattern of each block of [main]: when the appends return, the
    destructor returns too, and heap and mapping are what they were before
    the array was constructed.  Every buffer the array has held has gone
    back to the runtime: [2 * c - 1] elements for a last capacity [c >= 1],
    none for an array that was never appended to. *)
Theorem scoped_array_gives_all_back this mr m0 ras w w1 out w2 :
  resource_sound mr m0 w ->
  vector_ctor this mr w = Ok tt w1 ->
  push_back_all this ras w1 = Ok out w2 ->
  exists w3 c,
    vector_dtor this w2 = Ok tt w3 /\
    last (0 :: out.*2) = Some c /\
    heap w3 = heap w /\
    resources w3 !! mr = Some (mkResource m0) /\
    released w3 = released w + sizeof_T * (Z.max c 1 - 1 + c).
Proof.
  intros [Hres Hsub] Hctor Hrun.
  unfold vector_ctor in Hctor. apply Ok_inj in Hctor as [_ <-].
  set (w1 := set_vectors _ w) in *.
  assert (vectors w1 !! this = Some (mkVector NULL 0 0 mr)) as Hv
    by apply lookup_insert_eq.
  destruct (push_back_all_ok this ras _ [] w1 out w2 Hv (vec_holds_empty _ _))
    as (v0 & Hv0 & _ & _ & _ & _ & Hlast & _); [done|].
  destruct (push_back_all_sole_owner this (heap w) m0 ras
              (mkVector NULL 0 0 mr) [] w1 out w2) as (v' & Hown & Hal & Hrel);
    try done.
  { split; [done|]. split; [apply vec_holds_empty|]. left. by split_and!. }
  destruct Hown as (Hv' & Hown). rewrite Hv0 in Hv'. injection Hv' as ->.
  destruct (vector_dtor_sole_owner this (heap w) m0 v' (out.*1) w2)
    as (wc & w3 & _ & _ & _ & Hdtor & _ & _ & Hheap & Hres3 & _ & Hrel3); [by split|].
  exists w3, (capacity_ v'). simpl in *. rewrite Hal in Hres3.
  split_and!; try done. rewrite Hrel3, Hrel. simpl.
  replace (released w1) with (released w) by done. lia.
Qed.

(** ** The resource: which resource can give a block back *)

(** X8: [is_equal] tells whether one resource can release the blocks of the
    other.  A block obtained from [a] and passed to [deallocate] of [b] is
    released when [is_equal] holds (then [a] and [b] are one object); when
    it does not hold the call is ignored: [b] has no entry for the block,
    which stays live and stays recorded in [a]. *)
Theorem is_equal_contract a b ma mb r bytes al p w w1 bytes' al' :
  resource_sound a ma w -> resource_sound b mb w ->
  do_allocate a r bytes al w = Ok p w1 ->
  exists w2,
    do_deallocate b p bytes' al' w1 = Ok tt w2 /\
    if do_is_equal a b
    then heap w2 = heap w /\ resources w2 = resources w /\
         released w2 = released w + bytes
    else w2 = w1 /\ is_Some (heap w1 !! p) /\
         resources w1 !! a = Some (mkResource (<[p := bytes]> ma)).
Proof.
  intros [Hra Hsa] [Hrb Hsb]
    (-> & Hnull & Hr & mr & g & Hmr & -> & _)%do_allocate_ok.
  rewrite Hra in Hmr. injection Hmr as <-. unfold allocated. simpl.
  assert (forall m : gmap Z Z, (forall q, is_Some (m !! q) -> is_Some (heap w !! q)) ->
            m !! r = None) as Hfresh.
  { intros m Hsub. destruct (m !! r) eqn:Hm; [|done].
    destruct (Hsub r) as [? ?]; [by eexists | congruence]. }
  unfold do_is_equal. destruct (N.eqb_spec a b) as [<-|Hab].
  - erewrite do_deallocate_tracked; simpl;
      [| apply lookup_insert_eq | simpl; rewrite lookup_insert_eq; by eexists
       | done | apply lookup_insert_eq ].
    eexists. split; [reflexivity|]. simpl.
    rewrite !delete_insert_id by auto. rewrite insert_insert_eq.
    split_and!; try done. by apply insert_id.
  - eexists. split.
    + unfold do_deallocate. unfold bind, get_resource. simpl.
      rewrite lookup_insert_ne by done. rewrite Hrb. simpl.
      rewrite (Hfresh mb Hsb). reflexivity.
    + simpl. rewrite !lookup_insert_eq. split_and!; try done.
Qed.

(** ** The array: which exception, and why *)

(** X10: An exception leaves [push_back] only when the array is full, so
    that it has to grow.  It is [bad_array_new_length] when
    [new_cap * sizeof(T)] does not fit [size_t]; nothing has been asked of
    the runtime and the state is as it was.  It is [bad_alloc] when the
    byte count fits and either the runtime provides no block, the state
    being as it was, or it provides one and refuses the node of the map:
    then the block stays behind, live and unrecorded.  An append into spare
    capacity raises nothing. *)
Theorem push_back_raises_only_growing this r a v w e w' :
  vectors w !! this = Some v ->
  push_back this r a w = Throw e w' ->
  capacity_ v <= size_ v /\
  match e with
  | bad_array_new_length =>
      SIZE_MAX / sizeof_T < new_cap (capacity_ v) /\ w' = w
  | bad_alloc =>
      new_cap (capacity_ v) <= SIZE_MAX / sizeof_T /\
      ((w' = w /\ (r = NULL \/ is_Some (heap w !! r))) \/
       (r ≠ NULL /\ heap w !! r = None /\
        exists mr g,
          resources w !! alloc_ v = Some mr /\
          allocated_blocks_ mr !! r = None /\
          node_grants w = false :: g /\
          w' = leaked r (new_cap (capacity_ v) * sizeof_T) g w))
  end.
Proof.
  intros Hv (v0 & Hv0 & Hfull & _ & Hpa)%push_back_throw.
  rewrite Hv in Hv0. injection Hv0 as <-. split; [done|].
  unfold pa_allocate in Hpa.
  destruct (Z.ltb_spec (SIZE_MAX / sizeof_T) (new_cap (capacity_ v))) as [Hbig|Hfits].
  { by injection Hpa as <- <-. }
  apply bind_throw_inv in Hpa as [H|(q & w2 & _ & H)]; [|absurd_throw H].
  apply do_allocate_raises in H as (-> & H). done.
Qed.

(** ** The array: element access and iterators *)

Lemma iter_advance_pos n p k :
  iter_advance n (mkIter p k) = mkIter p (k + Z.of_nat n).
Proof.
  unfold iter_advance. induction n as [|n IH].
  - simpl. f_equal. lia.
  - rewrite Nat.iter_succ, IH. unfold iter_incr. simpl. f_equal. lia.
Qed.

Lemma load_past_end v xs w i :
  vec_holds v xs w -> heap w !! NULL = None -> Z.of_nat (length xs) <= i ->
  load (data_ v) i w = UB.
Proof.
  intros (Hsize & Hcap & Hbuf) Hnone Hi.
  destruct Hbuf as [[Hnull Hc0]|(Hnn & b & Hb & Hslots)].
  - unfold load. by rewrite Hnull, Hnone.
  - replace i with (Z.of_nat (Z.to_nat i)) by lia.
    rewrite (load_known _ _ _ _ Hb), Hslots.
    rewrite lookup_app_r by (rewrite length_fmap; lia).
    destruct (replicate _ _ !! _) as [o|] eqn:Ho; [|done].
    apply lookup_replicate in Ho as [-> _]. done.
Qed.

(** X11: [operator[]] checks no bound: it gives the element at a position below
    [size()], and is undefined at every position from [size()] on, spare
    capacity included; so is dereferencing [end()]. *)
Theorem index_bounds this v xs w i :
  vectors w !! this = Some v -> vec_holds v xs w -> heap w !! NULL = None ->
  0 <= i ->
  index this i w
  = match xs !! Z.to_nat i with Some x => Ok x w | None => UB end /\
  exists e, end_ this w = Ok e w /\ iter_deref e w = UB.
Proof.
  intros Hv Hh Hnone Hi. split.
  - destruct (xs !! Z.to_nat i) as [x|] eqn:Hx.
    + replace i with (Z.of_nat (Z.to_nat i)) by lia. by eapply index_holds.
    + apply lookup_ge_None in Hx. unfold index. run. rewrite Hv. simpl.
      apply (load_past_end v xs); [done | done | lia].
  - unfold end_. run. rewrite Hv. simpl. eexists. split; [reflexivity|].
    unfold iter_deref. simpl. apply (load_past_end v xs); [done | done |].
    destruct Hh as (-> & _). lia.
Qed.

(** X12: Walking an array by its iterators: [begin()] incremented [k] times
    differs from [end()] exactly while [k] is not [size()], and dereferences
    to the [k]-th element below it; post-increment returns the position it
    started from and leaves the next one; [cbegin()] and [cend()] are
    [begin()] and [end()]. *)
Theorem iterator_walk this v xs w :
  vectors w !! this = Some v -> vec_holds v xs w ->
  exists b e,
    begin_ this w = Ok b w /\ end_ this w = Ok e w /\
    cbegin this w = Ok b w /\ cend this w = Ok e w /\
    iter_advance (length xs) b = e /\
    (forall k, iter_neq (iter_advance k b) e = negb (k =? length xs)%nat) /\
    (forall k x, xs !! k = Some x ->
       iter_deref (iter_advance k b) w = Ok x w /\
       iter_post_incr (iter_advance k b)
       = (iter_advance k b, iter_advance (S k) b)).
Proof.
  intros Hv (Hsize & Hcap & Hbuf).
  exists (mkIter (data_ v) 0), (mkIter (data_ v) (size_ v)).
  unfold cbegin, cend, begin_, end_. run. rewrite Hv. simpl.
  split_and!; try done.
  - rewrite iter_advance_pos. f_equal. lia.
  - intros k. unfold iter_neq, iter_eq. rewrite iter_advance_pos. simpl.
    rewrite Z.eqb_refl. simpl. f_equal.
    destruct (Nat.eqb_spec k (length xs)); [apply Z.eqb_eq | apply Z.eqb_neq]; lia.
  - intros k x Hk. split; [|done].
    unfold iter_deref. rewrite iter_advance_pos. simpl. rewrite Z.add_0_l.
    destruct Hbuf as [[Hnull Hc0]|(Hnn & b & Hb & Hslots)].
    + apply lookup_lt_Some in Hk. lia.
    + rewrite (load_known _ _ _ _ Hb), Hslots.
      rewrite lookup_app_l by (rewrite length_fmap; by apply lookup_lt_Some in Hk).
      by rewrite list_lookup_fmap, Hk.
Qed.

(** X13: [empty()] is true exactly when the array holds no element, which is
    when [size()] is 0 and when [begin()] equals [end()]. *)
Theorem empty_iff_no_elements this v xs w :
  vectors w !! this = Some v -> vec_holds v xs w ->
  exists b e n,
    begin_ this w = Ok b w /\ end_ this w = Ok e w /\ size this w = Ok n w /\
    empty this w = Ok (iter_eq b e) w /\
    iter_eq b e = (n =? 0) /\
    (iter_eq b e = true <-> xs = []).
Proof.
  intros Hv (Hsize & Hcap & Hbuf).
  exists (mkIter (data_ v) 0), (mkIter (data_ v) (size_ v)), (size_ v).
  assert (iter_eq (mkIter (data_ v) 0) (mkIter (data_ v) (size_ v))
          = (size_ v =? 0)) as Heq.
  { unfold iter_eq. cbn [it_block it_pos]. rewrite Z.eqb_refl. apply Z.eqb_sym. }
  rewrite !Heq. unfold begin_, end_, size, empty, bind, get_vector, ret.
  rewrite Hv. split_and!; try done.
  rewrite Z.eqb_eq, Hsize. destruct xs; simpl; split; (done || lia).
Qed.

(** ** The resource destroyed before its array *)

Lemma free_each_gone (l : list (Z * Z)) : forall w w',
  for_each l (fun '(p, _) => free p) w = Ok tt w' ->
  vectors w' = vectors w /\
  (forall q, heap w !! q = None -> heap w' !! q = None) /\
  (forall p n, (p, n) ∈ l -> p ≠ NULL -> heap w' !! p = None).
Proof.
  induction l as [|[p n] l IH]; intros w w'.
  - simpl. intros [_ <-]%Ok_inj. split_and!; try done.
    intros ?? Hin. by apply elem_of_nil in Hin.
  - cbn [for_each]. intros ([] & w1 & Hfree & Hrest)%bind_ok_inv.
    destruct (IH _ _ Hrest) as (Hvs & Hmono & Hgone).
    assert (vectors w1 = vectors w /\
            (forall q, heap w !! q = None -> heap w1 !! q = None) /\
            (p ≠ NULL -> heap w1 !! p = None)) as (Hvs1 & Hmono1 & Hp).
    { unfold free in Hfree. destruct (Z.eqb_spec p NULL) as [->|Hp].
      - apply Ok_inj in Hfree as [_ <-]. done.
      - destruct (heap w !! p) as [b|] eqn:Hb; [|done].
        apply Ok_inj in Hfree as [_ <-]. simpl. split_and!; try done.
        + intros q Hq. destruct (decide (q = p)) as [->|Hqp].
          * by rewrite lookup_delete_eq.
          * by rewrite lookup_delete_ne.
        + intros _. by rewrite lookup_delete_eq. }
    split_and!.
    + congruence.
    + auto.
    + intros q k [[= -> ->]|Hin]%elem_of_cons Hq; [auto | by eapply Hgone].
Qed.

(** X14: The destructor of a resource frees the buffers of the arrays that still
    use it.  Such an array is left dangling: its record is as before, its
    buffer is no live block, and reading an element, iterating, [clear], the
    destructor of an array that holds elements, and an append into spare
    capacity are all undefined. *)
Theorem resource_dtor_dangles this v xs w mr w1 :
  vectors w !! this = Some v -> vec_holds v xs w -> data_ v ≠ NULL ->
  resources w !! alloc_ v = Some mr ->
  is_Some (allocated_blocks_ mr !! data_ v) ->
  resource_dtor (alloc_ v) w = Ok tt w1 ->
  vectors w1 !! this = Some v /\ heap w1 !! data_ v = None /\
  (forall i, index this i w1 = UB) /\
  (xs ≠ [] ->
     iterate this w1 = UB /\ clear this w1 = UB /\ vector_dtor this w1 = UB) /\
  (size_ v < capacity_ v -> forall r a, push_back this r a w1 = UB).
Proof.
  intros Hv (Hsize & Hcap & Hbuf) Hnn Hmr [n Hn]. unfold resource_dtor.
  intros (mr0 & w0 & Hget & H)%bind_ok_inv.
  unfold get_resource in Hget. rewrite Hmr in Hget. apply Ok_inj in Hget as [<- <-].
  apply bind_ok_inv in H as ([] & w2 & Hloop & Hput).
  apply Ok_inj in Hput as [_ <-].
  destruct (free_each_gone _ _ _ Hloop) as (Hvs & _ & Hgone).
  assert (heap w2 !! data_ v = None) as Hdead.
  { apply (Hgone _ n); [|done]. by apply elem_of_map_to_list. }
  assert (vectors w2 !! this = Some v) as Hv2 by (by rewrite Hvs).
  set (w3 := set_resources _ w2).
  assert (vectors w3 !! this = Some v) as Hv3 by done.
  assert (heap w3 !! data_ v = None) as Hdead3 by done.
  clearbody w3. split; [done|]. split; [done|].
  assert (forall i, load (data_ v) i w3 = UB) as Hload.
  { intros i. unfold load. by rewrite Hdead3. }
  assert (xs ≠ [] -> 0 < size_ v) as Hpos.
  { intros Hxs. rewrite Hsize. destruct xs; [done | simpl; lia]. }
  split_and!.
  - intros i. unfold index, bind, get_vector. rewrite Hv3. apply Hload.
  - intros Hxs. specialize (Hpos Hxs).
    assert (clear this w3 = UB) as Hclear.
    { unfold clear. unfold bind at 1, get_vector. rewrite Hv3.
      rewrite seqZ_cons by lia. cbn [for_each]. unfold bind, destroy.
      by rewrite Hdead3. }
    split_and!.
    + unfold iterate, begin_, end_, bind, get_vector, ret. rewrite Hv3.
      cbn [it_pos it_block]. rewrite Hv3. cbn [it_pos it_block].
      rewrite Z.sub_0_r.
      destruct (Z.to_nat (size_ v)) as [|k] eqn:Hk; [lia|]. cbn [range_for].
      unfold iter_eq. cbn [it_pos it_block]. rewrite Z.eqb_refl. cbn [andb].
      replace (0 =? size_ v) with false by (symmetry; apply Z.eqb_neq; lia).
      unfold bind, iter_deref. cbn [it_pos it_block]. by rewrite Hload.
    + done.
    + unfold vector_dtor. unfold bind at 1. by rewrite Hclear.
  - intros Hroom r a. unfold push_back. unfold bind at 1.
    destruct (read a w3) as [x0 w4|e w4|] eqn:Hrd;
      [|by apply nothrow_read in Hrd|done].
    pose proof (read_ok _ _ _ _ Hrd) as ->.
    unfold bind at 1, get_vector. rewrite Hv3.
    apply Z.leb_gt in Hroom. rewrite Hroom. unfold bind at 1, ret.
    unfold bind at 1, get_vector. rewrite Hv3. unfold bind at 1. rewrite Hrd.
    unfold bind, construct. by rewrite Hdead3.
Qed.

(** ** The array: an append into spare capacity *)

(** X15: While [size_ < capacity_] an append works in place, whatever the
    runtime would answer to a request, and whatever live object its
    argument refers to, an element of the array itself included: it
    returns, the buffer pointer and the capacity stay, so that iterators
    and references to the elements stay valid; the resource is not called
    (mapping and released bytes are unchanged, no block appears or
    disappears); every element is where it was, and the new one follows
    them. *)
Theorem push_back_in_place this v xs a x w :
  vectors w !! this = Some v -> vec_holds v xs w -> size_ v < capacity_ v ->
  read a w = Ok x w ->
  exists w',
    (forall r, push_back this r a w = Ok tt w') /\
    vectors w' !! this
    = Some (mkVector (data_ v) (size_ v + 1) (capacity_ v) (alloc_ v)) /\
    resources w' = resources w /\ released w' = released w /\
    (forall q, q ≠ data_ v -> heap w' !! q = heap w !! q) /\
    is_Some (heap w' !! data_ v) /\
    (forall k y, xs !! k = Some y -> index this (Z.of_nat k) w' = Ok y w') /\
    index this (size_ v) w' = Ok x w'.
Proof.
  intros Hv Hh Hroom Hrd. pose proof Hh as (Hsize & Hcap & Hbuf).
  destruct Hbuf as [[_ Hc0]|(Hnn & b & Hb & Hslots)]; [lia|].
  set (w' := mkWorld
    (<[data_ v := mkBlock (blk_bytes b)
         (<[Z.to_nat (size_ v) := Some x]> (blk_slots b))]> (heap w))
    (released w) (resources w)
    (<[this := mkVector (data_ v) (size_ v + 1) (capacity_ v) (alloc_ v)]>
       (vectors w))
    (node_grants w)).
  assert (forall r, push_back this r a w = Ok tt w') as Hrun.
  { intros r. unfold push_back. unfold bind at 1. rewrite Hrd.
    unfold bind at 1, get_vector. rewrite Hv.
    apply Z.leb_gt in Hroom as Hr. rewrite Hr. unfold bind at 1, ret.
    unfold bind at 1, get_vector. rewrite Hv. unfold bind at 1. rewrite Hrd.
    unfold bind, construct. rewrite Hb.
    assert ((0 <=? size_ v) && (size_ v <? Z.of_nat (length (blk_slots b))) = true)
      as ->.
    { apply andb_true_iff. split; [apply Z.leb_le; lia | apply Z.ltb_lt].
      rewrite Hslots, length_app, length_fmap, length_replicate. lia. }
    unfold put_vector, set_vectors, set_heap.
    cbn [heap released resources vectors node_grants].
    rewrite wrap_small by lia. reflexivity. }
  destruct (push_back_ok _ _ _ _ _ _ _ Hv Hh (Hrun 0))
    as (v' & x' & Hrd' & Hvs & Hh' & _).
  rewrite Hrd in Hrd'. apply Ok_inj in Hrd' as [<- _].
  assert (vectors w' !! this
          = Some (mkVector (data_ v) (size_ v + 1) (capacity_ v) (alloc_ v))) as Hv'
    by apply lookup_insert_eq.
  assert (v' = mkVector (data_ v) (size_ v + 1) (capacity_ v) (alloc_ v)) as ->.
  { rewrite Hvs, lookup_insert_eq in Hv'. by injection Hv'. }
  exists w'. split; [done|]. split; [done|]. split; [done|]. split; [done|].
  split; [|split; [|split]].
  - intros q Hq. subst w'. cbn [heap]. by rewrite lookup_insert_ne.
  - subst w'. cbn [heap]. rewrite lookup_insert_eq. by eexists.
  - intros k y Hk. apply (index_holds _ _ _ _ _ _ Hv' Hh').
    by apply lookup_app_l_Some.
  - rewrite Hsize. apply (index_holds _ _ _ _ _ _ Hv' Hh').
    by apply list_lookup_middle.
Qed.

(** ** The array: an element of a full array as the argument *)

(** X16: [v.push_back(v[i])] on a full array.  The parameter is a
    reference into the buffer, and [grow()] has destroyed the elements of
    that buffer and given it back before the new element is constructed
    from the parameter: wherever an append of an object outside the arrays
    returns, the append of the array's own element is undefined. *)
Theorem push_back_own_element_when_full this r v xs i x y w w1 :
  vectors w !! this = Some v -> vec_holds v xs w ->
  data_ v ≠ NULL -> capacity_ v <= size_ v ->
  read (At (data_ v) i) w = Ok x w ->
  push_back this r (Val y) w = Ok tt w1 ->
  push_back this r (At (data_ v) i) w = UB.
Proof.
  intros Hv Hh Hnn Hfull Hrd Hval.
  destruct (push_back_inv _ _ _ _ _ _ Hv Hval)
    as (x0 & wg & v1 & x1 & b1 & _ & Hgrow & Hv1 & _).
  apply Z.leb_le in Hfull as Hfull'. rewrite Hfull' in Hgrow.
  destruct (grow_heap _ _ _ _ _ _ Hv Hh Hfull Hgrow) as (_ & _ & Hold).
  unfold push_back. unfold bind at 1. rewrite Hrd.
  unfold bind at 1, get_vector. rewrite Hv, Hfull'.
  unfold bind at 1. rewrite Hgrow. unfold bind at 1, get_vector. rewrite Hv1.
  unfold bind at 1. cbn [read]. by rewrite (Hold Hnn i).
Qed.

End Lab5.

Arguments Ok {T A} a w.
Arguments Throw {T A} e w.
Arguments UB {T A}.
Arguments mkWorld {T} heap released resources vectors node_grants.
Arguments mkBlock {T} blk_bytes blk_slots.
Arguments Val {T} x.
Arguments At {T} p i.

(** ** The theorems at work on the demonstration, with [int] elements *)

Lemma fresh_world_sound : resource_sound 1 ∅ (fresh_world (T:=Z)).
Proof.
  split; [reflexivity|]. intros p [? H]. by rewrite lookup_empty in H.
Qed.

Lemma main_block_holds :
  vec_holds (mkVector 300 3 4 1) [10; 20; 30]
    (world_of (main_block (T:=Z) 4 4 10 20 30 fresh_world)).
Proof.
  split_and!; [reflexivity | simpl; lia | done |].
  right. split; [done|]. eexists. split; reflexivity.
Qed.


Lemma two_arrays_holds_a :
  vec_holds (mkVector 100 1 1 1) [10]
    (world_of (two_arrays (T:=Z) 4 4 10 20 30 fresh_world)).
Proof.
  split_and!; [reflexivity | simpl; lia | done |].
  right. split; [done|]. eexists. split; reflexivity.
Qed.

Lemma two_arrays_holds_b :
  vec_holds (mkVector 300 2 2 1) [20; 30]
    (world_of (two_arrays (T:=Z) 4 4 10 20 30 fresh_world)).
Proof.
  split_and!; [reflexivity | simpl; lia | done |].
  right. split; [done|]. eexists. split; reflexivity.
Qed.

Lemma two_arrays_count_le_capacity :
  count_le_capacity (world_of (two_arrays (T:=Z) 4 4 10 20 30 fresh_world)).
Proof.
  intros id v.
  change (vectors (world_of (two_arrays (T:=Z) 4 4 10 20 30 fresh_world)))
    with (<[12%N := mkVector 300 2 2 1]>
            (<[11%N := mkVector 100 1 1 1]> (∅ : gmap N pmr_vector))).
  intros [[_ <-]|[_ [[_ <-]|[_ H]]%lookup_insert_Some]]%lookup_insert_Some;
    [simpl; lia | simpl; lia | by rewrite lookup_empty in H].
Qed.

(** C8 on the resource of [main] after one allocation: deallocating the
    never issued handle 555 changes nothing. *)
Lemma do_deallocate_absent_noop_witness :
  let w := world_of (do_allocate (T:=Z) 1 100 16 8 fresh_world) in
  (resources w !! 1%N = Some (mkResource {[ 100 := 16 ]}) /\
   ({[ 100 := 16 ]} : gmap Z Z) !! 555 = None) /\
  do_deallocate 1 555 16 8 w = Ok tt w.
Proof.
  split; [split; reflexivity|].
  apply (do_deallocate_absent_noop 1 (mkResource {[ 100 := 16 ]})); reflexivity.
Defined.

(** C1 on [resource_calls]. *)
Lemma accounting_invariant_witness :
  resources (fresh_world (T:=Z)) !! 1%N = Some (mkResource ∅) /\
  exists reps w' m',
    perform_all 1 resource_calls (fresh_world (T:=Z)) = Some (reps, w') /\
    length reps = length resource_calls /\
    resources w' !! 1%N = Some (mkResource m') /\
    NoDup (live_handles [] (zip resource_calls reps)).*1 /\
    (forall p n, m' !! p = Some n <-> (p, n) ∈ live_handles [] (zip resource_calls reps)) /\
    dom m' = list_to_set (live_handles [] (zip resource_calls reps)).*1.
Proof.
  split; [reflexivity|]. apply (accounting_invariant (T:=Z)). reflexivity.
Defined.

(** C2: three blocks of 16, 32 and 8 bytes, then the destructor. *)
Lemma leak_backstop_witness :
  let reqs := [(100, 16); (200, 32); (300, 8)] in
  let w1 := world_of (allocate_all (T:=Z) 1 8 reqs fresh_world) in
  (resources (fresh_world (T:=Z)) !! 1%N = Some (mkResource ∅) /\
   allocate_all 1 8 reqs fresh_world = Ok [100; 200; 300] w1) /\
  exists w2,
    resource_dtor 1 w1 = Ok tt w2 /\
    resources w2 !! 1%N = Some (mkResource ∅) /\
    heap w2 = heap (fresh_world (T:=Z)) /\
    released w2 = released (fresh_world (T:=Z)) + sumZ reqs.*2 /\
    (heap (fresh_world (T:=Z)) = ∅ -> outstanding w2 = 0).
Proof.
  split; [split; reflexivity|].
  apply (leak_backstop 1 8 [(100, 16); (200, 32); (300, 8)] fresh_world
           [100; 200; 300]); reflexivity.
Defined.


(** C4: array [b] of [two_arrays] is full and [operator new] refuses the
    node of the mapping: the append ends in [bad_alloc], the array is as it
    was, and the block of 16 bytes the runtime granted at 400 stays on the
    heap. *)
Lemma push_back_failure_atomic_witness :
  let w := set_node_grants [false]
             (world_of (two_arrays (T:=Z) 4 4 10 20 30 fresh_world)) in
  let v := mkVector 300 2 2 1 in
  let mr := mkResource {[ 100 := 4; 300 := 8 ]} in
  let w' := leaked 400 16 [] w in
  (vectors w !! 12%N = Some v /\ capacity_ v <= size_ v /\
   read (Val 40) w = Ok 40 w /\
   resources w !! alloc_ v = Some mr /\
   allocated_blocks_ mr !! 400 = None /\
   (exists g, node_grants w = false :: g) /\
   push_back 4 4 12 400 (Val 40) w = Throw bad_alloc w') /\
  (exists e w'', push_back 4 4 12 400 (Val 40) w = Throw e w'') /\
  (exists v0,
     vectors w !! 12%N = Some v0 /\
     capacity_ v0 <= size_ v0 /\
     vectors w' = vectors w /\
     resources w' = resources w /\
     released w' = released w /\
     (forall q b, heap w !! q = Some b -> heap w' !! q = Some b) /\
     (forall xs, vec_holds v0 xs w ->
        vec_holds v0 xs w' /\
        size 12 w' = Ok (Z.of_nat (length xs)) w' /\
        iterate 12 w' = Ok xs w') /\
     after_failure 400 (new_cap (capacity_ v0) * 4) w w').
Proof.
  intros w v mr w'.
  assert (vectors w !! 12%N = Some v) as Hv by reflexivity.
  assert (capacity_ v <= size_ v) as Hfull by (simpl; lia).
  assert (read (Val 40) w = Ok 40 w) as Hrd by reflexivity.
  assert (resources w !! alloc_ v = Some mr) as Hmr by reflexivity.
  assert (allocated_blocks_ mr !! 400 = None) as Hnew by reflexivity.
  assert (exists g, node_grants w = false :: g) as Hg by (by exists []).
  assert (push_back 4 4 12 400 (Val 40) w = Throw bad_alloc w') as Hrun
    by (vm_compute; reflexivity).
  split.
  { split; [exact Hv|]. split; [exact Hfull|]. split; [exact Hrd|].
    split; [exact Hmr|]. split; [exact Hnew|]. split; [exact Hg | exact Hrun]. }
  split.
  - exact (proj2 (push_back_failure_atomic 4 4 12 400 (Val 40) w) v 40 mr
             Hv Hfull Hrd (or_intror (conj Hmr (conj Hnew Hg)))).
  - exact (proj1 (push_back_failure_atomic 4 4 12 400 (Val 40) w) _ _ Hrun).
Defined.

(** C5: a new array at address 13 move-constructed from [a] of
    [two_arrays]; the move-assignment operator has no instance. *)
Lemma move_transfer_witness :
  let w := world_of (two_arrays (T:=Z) 4 4 10 20 30 fresh_world) in
  let va := mkVector 100 1 1 1 in
  (11%N ≠ 13%N /\ vectors w !! 11%N = Some va /\ vec_holds va [10] w) /\
  (exists w',
     move_ctor 13 11 w = Ok tt w' /\
     vectors w' !! 13%N = Some va /\
     vectors w' !! 11%N = Some (mkVector NULL 0 0 (alloc_ va)) /\
     heap w' = heap w /\
     released w' = released w /\
     resources w' = resources w /\
     size 13 w' = Ok (Z.of_nat (length [10])) w' /\
     iterate 13 w' = Ok [10] w' /\
     vec_holds (mkVector NULL 0 0 (alloc_ va)) [] w' /\
     vector_dtor 4 4 11 w' = Ok tt w') /\
  move_assign (T:=Z) 4 4 = None.
Proof.
  intros w va.
  assert (11%N ≠ 13%N) as Hne by done.
  split; [split_and!; [exact Hne | reflexivity | exact two_arrays_holds_a]|].
  exact (move_transfer 4 4 11 13 va [10] w Hne eq_refl two_arrays_holds_a).
Defined.


(** C9 on [two_arrays]: an append that makes [b] grow, an append the
    runtime refuses, and a new array move-constructed from [a]. *)
Lemma count_le_capacity_kept_witness :
  let w := world_of (two_arrays (T:=Z) 4 4 10 20 30 fresh_world) in
  let w1 := world_of (push_back 4 4 12 400 (Val 40) w) in
  let w2 := world_of (move_ctor 13 11 w) in
  (count_le_capacity w /\
   push_back 4 4 12 400 (Val 40) w = Ok tt w1 /\
   push_back 4 4 12 NULL (Val 40) w = Throw bad_alloc w /\
   13%N ≠ 11%N /\ move_ctor 13 11 w = Ok tt w2) /\
  (count_le_capacity w1 /\
   forall id v, vectors w !! id = Some v ->
     exists v', vectors w1 !! id = Some v' /\ capacity_ v <= capacity_ v') /\
  (count_le_capacity w /\ vectors w = vectors w) /\
  (count_le_capacity w2 /\
   exists o, vectors w !! 11%N = Some o /\
     capacity_ <$> vectors w2 !! 13%N = Some (capacity_ o) /\
     capacity_ <$> vectors w2 !! 11%N = Some 0 /\
     forall id, id ≠ 13%N -> id ≠ 11%N -> vectors w2 !! id = vectors w !! id) /\
  move_assign (T:=Z) 4 4 = None.
Proof.
  intros w w1 w2.
  pose proof two_arrays_count_le_capacity as Hinv.
  assert (push_back 4 4 12 400 (Val 40) w = Ok tt w1) as Hok
    by (vm_compute; reflexivity).
  assert (push_back 4 4 12 NULL (Val 40) w = Throw bad_alloc w) as Hthrow
    by (vm_compute; reflexivity).
  assert (13%N ≠ 11%N) as Hne by done.
  assert (move_ctor 13 11 w = Ok tt w2) as Hmove by (vm_compute; reflexivity).
  destruct (count_le_capacity_kept (T:=Z) 4 4)
    as (_ & Hpush & Hfail & _ & Hctor & _ & Hnone).
  split; [split_and!; [exact Hinv | exact Hok | exact Hthrow | exact Hne | exact Hmove]|].
  split; [exact (Hpush 12%N 400 (Val 40) w w1 Hinv Hok)|].
  split; [exact (Hfail 12%N NULL (Val 40) w bad_alloc w Hinv Hthrow)|].
  split; [exact (Hctor 13%N 11%N w w2 Hinv Hne Hmove) | exact Hnone].
Defined.

(** ** The further properties at work on the demonstration *)

(** X1: a block of 16 bytes from the resource of [main], given back with a
    byte count of 99. *)
Lemma allocate_deallocate_round_trip_witness :
  let w := fresh_world (T:=Z) in
  let w1 := world_of (do_allocate (T:=Z) 1 100 16 8 w) in
  (resource_sound 1 ∅ w /\ do_allocate 1 100 16 8 w = Ok 100 w1) /\
  (100 ≠ NULL /\ heap w !! 100 = None /\ (∅ : gmap Z Z) !! 100 = None /\
   resources w1 !! 1%N = Some (mkResource (<[100 := 16]> ∅)) /\
   exists w2,
     do_deallocate 1 100 99 1 w1 = Ok tt w2 /\
     heap w2 = heap w /\ resources w2 = resources w /\
     vectors w2 = vectors w /\ released w2 = released w + 16).
Proof.
  split; [split; [exact fresh_world_sound | reflexivity]|].
  apply (allocate_deallocate_round_trip (T:=Z) 1 ∅ fresh_world 100 16 8 100 _ 99 1
           fresh_world_sound).
  reflexivity.
Defined.

(** X2: the same block given back twice. *)
Lemma deallocate_twice_witness :
  let w := world_of (do_allocate (T:=Z) 1 100 16 8 fresh_world) in
  let w1 := world_of (do_deallocate 1 100 16 8 w) in
  do_deallocate 1 100 16 8 w = Ok tt w1 /\
  do_deallocate 1 100 32 8 w1 = Ok tt w1.
Proof.
  split; [vm_compute; reflexivity|].
  apply (deallocate_twice (T:=Z) 1 100 16 8 32 8
           (world_of (do_allocate (T:=Z) 1 100 16 8 fresh_world))).
  vm_compute; reflexivity.
Defined.

(** X3: the runtime grants 16 bytes at 100 and [operator new] refuses the
    node of the mapping. *)
Lemma do_allocate_failure_witness :
  let w := set_node_grants [false] (fresh_world (T:=Z)) in
  let w' := leaked 100 16 [] w in
  do_allocate 1 100 16 8 w = Throw bad_alloc w' /\
  (bad_alloc = bad_alloc /\
   ((w' = w /\ (100 = NULL \/ is_Some (heap w !! 100))) \/
    (100 ≠ NULL /\ heap w !! 100 = None /\
     heap w' = <[100 := mkBlock 16 []]> (heap w) /\
     resources w' = resources w /\
     vectors w' = vectors w /\
     released w' = released w /\
     node_grants w = false :: node_grants w' /\
     forall bytes' al', do_deallocate 1 100 bytes' al' w' = Ok tt w'))).
Proof.
  intros w w'.
  assert (do_allocate 1 100 16 8 w = Throw bad_alloc w') as Hrun by reflexivity.
  split; [exact Hrun|].
  exact (do_allocate_failure (T:=Z) 1 100 16 8 w bad_alloc w' Hrun).
Defined.

(** X4: an append that makes [b] of [two_arrays] grow leaves [a] alone. *)
Lemma push_back_leaves_other_arrays_witness :
  let w := world_of (two_arrays (T:=Z) 4 4 10 20 30 fresh_world) in
  let w' := world_of (push_back 4 4 12 400 (Val 40) w) in
  let va := mkVector 100 1 1 1 in
  let vb := mkVector 300 2 2 1 in
  (12%N ≠ 11%N /\ vectors w !! 12%N = Some vb /\ vec_holds vb [20; 30] w /\
   vectors w !! 11%N = Some va /\ vec_holds va [10] w /\
   (data_ va = NULL \/ data_ vb ≠ data_ va) /\
   push_back 4 4 12 400 (Val 40) w = Ok tt w') /\
  (vectors w' !! 11%N = Some va /\ vec_holds va [10] w' /\
   size 11 w' = Ok (Z.of_nat (length [10])) w' /\
   iterate 11 w' = Ok [10] w').
Proof.
  intros w w' va vb.
  assert (12%N ≠ 11%N) as Hne by done.
  assert (data_ va = NULL \/ data_ vb ≠ data_ va) as Hd by (by right).
  assert (push_back 4 4 12 400 (Val 40) w = Ok tt w') as Hrun
    by (vm_compute; reflexivity).
  split.
  { split; [exact Hne|]. split; [reflexivity|]. split; [exact two_arrays_holds_b|].
    split; [reflexivity|]. split; [exact two_arrays_holds_a|].
    split; [exact Hd | exact Hrun]. }
  exact (push_back_leaves_other_arrays 4 4 12 11 vb [20; 30] va [10] 400 (Val 40)
           w w' Hne eq_refl two_arrays_holds_b eq_refl two_arrays_holds_a Hd Hrun).
Defined.

(** X5: the three appends of [main]: one block of 16 bytes is left, 4 and 8
    bytes have gone back. *)
Lemma appends_keep_one_block_witness :
  let ras := vals [(100, 10); (200, 20); (300, 30)] in
  let out := [(10, 1); (20, 2); (30, 4)] in
  let w := world_of (vector_ctor (T:=Z) 10 1 fresh_world) in
  let w' := world_of (push_back_all 4 4 10 ras w) in
  (resource_sound 1 ∅ w /\ vectors w !! 10%N = Some (mkVector NULL 0 0 1) /\
   push_back_all 4 4 10 ras w = Ok out w') /\
  exists v',
    sole_owner 4 10 (heap w) ∅ v' [10; 20; 30] w' /\ alloc_ v' = 1%N /\
    released w' = released w + 4 * (Z.max (capacity_ v') 1 - 1) /\
    length out = length ras /\
    (forall k r x, ras !! k = Some (r, Val x) -> out.*1 !! k = Some x).
Proof.
  intros ras out w w'.
  assert (resource_sound 1 ∅ w) as Hs by exact fresh_world_sound.
  assert (push_back_all 4 4 10 ras w = Ok out w') as Hrun
    by (vm_compute; reflexivity).
  split; [split; [exact Hs|]; split; [reflexivity | exact Hrun]|].
  exact (appends_keep_one_block 4 4 10 1 ∅ ras w out w' Hs eq_refl Hrun).
Defined.


(** X7: the first block of [main] from the constructor to the destructor. *)
Lemma scoped_array_gives_all_back_witness :
  let ras := vals [(100, 10); (200, 20); (300, 30)] in
  let out := [(10, 1); (20, 2); (30, 4)] in
  let w := fresh_world (T:=Z) in
  let w1 := world_of (vector_ctor (T:=Z) 10 1 w) in
  let w2 := world_of (push_back_all 4 4 10 ras w1) in
  (resource_sound 1 ∅ w /\ vector_ctor 10 1 w = Ok tt w1 /\
   push_back_all 4 4 10 ras w1 = Ok out w2) /\
  exists w3 c,
    vector_dtor 4 4 10 w2 = Ok tt w3 /\
    last (0 :: [1; 2; 4]) = Some c /\
    heap w3 = heap w /\
    resources w3 !! 1%N = Some (mkResource ∅) /\
    released w3 = released w + 4 * (Z.max c 1 - 1 + c).
Proof.
  intros ras out w w1 w2.
  assert (push_back_all 4 4 10 ras w1 = Ok out w2) as Hrun
    by (vm_compute; reflexivity).
  split; [split; [exact fresh_world_sound|]; split; [reflexivity | exact Hrun]|].
  exact (scoped_array_gives_all_back 4 4 10 1 ∅ ras w w1 out w2
           fresh_world_sound eq_refl Hrun).
Defined.

(** X8: two resources: a block of the first passed to the second. *)
Lemma is_equal_contract_witness :
  let w := mkWorld (T:=Z) ∅ 0 {[ 1%N := mkResource ∅; 2%N := mkResource ∅ ]} ∅ [] in
  let w1 := world_of (do_allocate (T:=Z) 1 100 16 8 w) in
  (resource_sound 1 ∅ w /\ resource_sound 2 ∅ w /\
   do_allocate 1 100 16 8 w = Ok 100 w1) /\
  exists w2,
    do_deallocate 2 100 16 8 w1 = Ok tt w2 /\
    if do_is_equal 1 2
    then heap w2 = heap w /\ resources w2 = resources w /\
         released w2 = released w + 16
    else w2 = w1 /\ is_Some (heap w1 !! 100) /\
         resources w1 !! 1%N = Some (mkResource (<[100 := 16]> ∅)).
Proof.
  intros w w1.
  assert (resource_sound 1 ∅ w) as H1.
  { split; [reflexivity|]. intros p [? H]. by rewrite lookup_empty in H. }
  assert (resource_sound 2 ∅ w) as H2.
  { split; [reflexivity|]. intros p [? H]. by rewrite lookup_empty in H. }
  assert (do_allocate 1 100 16 8 w = Ok 100 w1) as Hrun by (vm_compute; reflexivity).
  split; [split; [exact H1|]; split; [exact H2 | exact Hrun]|].
  exact (is_equal_contract 1 2 ∅ ∅ 100 16 8 100 w w1 16 8 H1 H2 Hrun).
Defined.

(** X10: array [b] of [two_arrays] is full, the runtime grants 16 bytes at
    400 and [operator new] refuses the node of the mapping. *)
Lemma push_back_raises_only_growing_witness :
  let w := set_node_grants [false]
             (world_of (two_arrays (T:=Z) 4 4 10 20 30 fresh_world)) in
  let v := mkVector 300 2 2 1 in
  let w' := leaked 400 16 [] w in
  (vectors w !! 12%N = Some v /\
   push_back 4 4 12 400 (Val 40) w = Throw bad_alloc w') /\
  capacity_ v <= size_ v /\
  new_cap (capacity_ v) <= SIZE_MAX / 4 /\
  ((w' = w /\ (400 = NULL \/ is_Some (heap w !! 400))) \/
   (400 ≠ NULL /\ heap w !! 400 = None /\
    exists mr g,
      resources w !! alloc_ v = Some mr /\
      allocated_blocks_ mr !! 400 = None /\
      node_grants w = false :: g /\
      w' = leaked 400 (new_cap (capacity_ v) * 4) g w)).
Proof.
  intros w v w'.
  assert (push_back 4 4 12 400 (Val 40) w = Throw bad_alloc w') as Hrun
    by (vm_compute; reflexivity).
  split; [split; [reflexivity | exact Hrun]|].
  exact (push_back_raises_only_growing 4 4 12 400 (Val 40) v w bad_alloc w'
           eq_refl Hrun).
Defined.

(** X11: the array of [main] holds three elements in a buffer of four:
    position 3 is spare capacity. *)
Lemma index_bounds_witness :
  let w := world_of (main_block (T:=Z) 4 4 10 20 30 fresh_world) in
  let v := mkVector 300 3 4 1 in
  (vectors w !! 10%N = Some v /\ vec_holds v [10; 20; 30] w /\
   heap w !! NULL = None /\ 0 <= 3) /\
  index 10 3 w = UB /\
  exists e, end_ 10 w = Ok e w /\ iter_deref e w = UB.
Proof.
  intros w v.
  assert (0 <= 3) as Hi by discriminate.
  split; [split; [reflexivity|]; split; [exact main_block_holds|];
          split; [reflexivity | exact Hi]|].
  exact (index_bounds 10 v [10; 20; 30] w 3 eq_refl main_block_holds eq_refl Hi).
Defined.

(** X12: the iterators of the array of [main]. *)
Lemma iterator_walk_witness :
  let w := world_of (main_block (T:=Z) 4 4 10 20 30 fresh_world) in
  let v := mkVector 300 3 4 1 in
  let xs := [10; 20; 30] in
  (vectors w !! 10%N = Some v /\ vec_holds v xs w) /\
  exists b e,
    begin_ 10 w = Ok b w /\ end_ 10 w = Ok e w /\
    cbegin 10 w = Ok b w /\ cend 10 w = Ok e w /\
    iter_advance (length xs) b = e /\
    (forall k, iter_neq (iter_advance k b) e = negb (k =? length xs)%nat) /\
    (forall k x, xs !! k = Some x ->
       iter_deref (iter_advance k b) w = Ok x w /\
       iter_post_incr (iter_advance k b)
       = (iter_advance k b, iter_advance (S k) b)).
Proof.
  intros w v xs. split; [split; [reflexivity | exact main_block_holds]|].
  exact (iterator_walk 10 v xs w eq_refl main_block_holds).
Defined.

(** X13: the array of [main] is not empty. *)
Lemma empty_iff_no_elements_witness :
  let w := world_of (main_block (T:=Z) 4 4 10 20 30 fresh_world) in
  let v := mkVector 300 3 4 1 in
  let xs := [10; 20; 30] in
  (vectors w !! 10%N = Some v /\ vec_holds v xs w) /\
  exists b e n,
    begin_ 10 w = Ok b w /\ end_ 10 w = Ok e w /\ size 10 w = Ok n w /\
    empty 10 w = Ok (iter_eq b e) w /\
    iter_eq b e = (n =? 0) /\
    (iter_eq b e = true <-> xs = []).
Proof.
  intros w v xs. split; [split; [reflexivity | exact main_block_holds]|].
  exact (empty_iff_no_elements 10 v xs w eq_refl main_block_holds).
Defined.

(** X14: the resource of [main] destroyed while the array still exists. *)
Lemma resource_dtor_dangles_witness :
  let w := world_of (main_block (T:=Z) 4 4 10 20 30 fresh_world) in
  let w1 := world_of (resource_dtor 1 w) in
  let v := mkVector 300 3 4 1 in
  let xs := [10; 20; 30] in
  (vectors w !! 10%N = Some v /\ vec_holds v xs w /\ data_ v ≠ NULL /\
   resources w !! alloc_ v = Some (mkResource {[ 300 := 16 ]}) /\
   is_Some (({[ 300 := 16 ]} : gmap Z Z) !! data_ v) /\
   resource_dtor (alloc_ v) w = Ok tt w1) /\
  vectors w1 !! 10%N = Some v /\ heap w1 !! data_ v = None /\
  (forall i, index 10 i w1 = UB) /\
  (xs ≠ [] ->
     iterate 10 w1 = UB /\ clear 10 w1 = UB /\ vector_dtor 4 4 10 w1 = UB) /\
  (size_ v < capacity_ v -> forall r a, push_back 4 4 10 r a w1 = UB).
Proof.
  intros w w1 v xs.
  assert (data_ v ≠ NULL) as Hnn by done.
  assert (resources w !! alloc_ v = Some (mkResource {[ 300 := 16 ]})) as Hmr
    by (vm_compute; reflexivity).
  assert (is_Some (({[ 300 := 16 ]} : gmap Z Z) !! data_ v)) as Hin
    by (by eexists).
  assert (resource_dtor (alloc_ v) w = Ok tt w1) as Hrun
    by (vm_compute; reflexivity).
  split.
  { split; [reflexivity|]. split; [exact main_block_holds|]. split; [exact Hnn|].
    split; [exact Hmr|]. split; [exact Hin | exact Hrun]. }
  exact (resource_dtor_dangles 4 4 10 v xs w (mkResource {[ 300 := 16 ]}) w1
           eq_refl main_block_holds Hnn Hmr Hin Hrun).
Defined.

(** X15: a fourth append to the array of [main], whose buffer has room for
    four. *)
Lemma push_back_in_place_witness :
  let w := world_of (main_block (T:=Z) 4 4 10 20 30 fresh_world) in
  let v := mkVector 300 3 4 1 in
  let xs := [10; 20; 30] in
  (vectors w !! 10%N = Some v /\ vec_holds v xs w /\ size_ v < capacity_ v /\
   read (Val 40) w = Ok 40 w) /\
  exists w',
    (forall r, push_back 4 4 10 r (Val 40) w = Ok tt w') /\
    vectors w' !! 10%N
    = Some (mkVector (data_ v) (size_ v + 1) (capacity_ v) (alloc_ v)) /\
    resources w' = resources w /\ released w' = released w /\
    (forall q, q ≠ data_ v -> heap w' !! q = heap w !! q) /\
    is_Some (heap w' !! data_ v) /\
    (forall k y, xs !! k = Some y -> index 10 (Z.of_nat k) w' = Ok y w') /\
    index 10 (size_ v) w' = Ok 40 w'.
Proof.
  intros w v xs.
  assert (size_ v < capacity_ v) as Hroom by reflexivity.
  assert (read (Val 40) w = Ok 40 w) as Hrd by reflexivity.
  split; [split; [reflexivity|]; split; [exact main_block_holds|];
          split; [exact Hroom | exact Hrd]|].
  exact (push_back_in_place 4 4 10 v xs (Val 40) 40 w eq_refl main_block_holds
           Hroom Hrd).
Defined.

(** X16: [b.push_back(b[0])] on the full array [b] of [two_arrays]: with the
    value 20 passed as a temporary the call returns, with the reference to
    the element it reads the buffer [grow] has given back. *)
Lemma push_back_own_element_when_full_witness :
  let w := world_of (two_arrays (T:=Z) 4 4 10 20 30 fresh_world) in
  let w1 := world_of (push_back 4 4 12 400 (Val 20) w) in
  let v := mkVector 300 2 2 1 in
  (vectors w !! 12%N = Some v /\ vec_holds v [20; 30] w /\
   data_ v ≠ NULL /\ capacity_ v <= size_ v /\
   read (At (data_ v) 0) w = Ok 20 w /\
   push_back 4 4 12 400 (Val 20) w = Ok tt w1) /\
  push_back 4 4 12 400 (At (data_ v) 0) w = UB.
Proof.
  intros w w1 v.
  assert (data_ v ≠ NULL) as Hnn by done.
  assert (capacity_ v <= size_ v) as Hfull by (simpl; lia).
  assert (read (At (data_ v) 0) w = Ok 20 w) as Hrd by (vm_compute; reflexivity).
  assert (push_back 4 4 12 400 (Val 20) w = Ok tt w1) as Hrun
    by (vm_compute; reflexivity).
  split.
  { split; [reflexivity|]. split; [exact two_arrays_holds_b|]. split; [exact Hnn|].
    split; [exact Hfull|]. split; [exact Hrd | exact Hrun]. }
  exact (push_back_own_element_when_full 4 4 12 400 v [20; 30] 0 20 20 w w1
           eq_refl two_arrays_holds_b Hnn Hfull Hrd Hrun).
Defined.
